(** * Turn-based action resolution of the roguelike, embedded from
    [actions.py] and [tile_types.py].

    Python objects live in a store indexed by identity; every
    [perform] method is a computation in a state monad whose state is the
    engine and in which a raised exception leaves the state reached so far
    in place, as a Python [raise] does. *)

From Stdlib Require Import ZArith Ascii String DecimalString.
From stdpp Require Import base option list gmap strings.

Local Open Scope Z_scope.

(** ** tile_types.py *)

Definition rgb : Type := Z * Z * Z.

(** [graphic_dt]: a glyph code point with foreground and background. *)
Record graphic := mk_graphic { ch : Z; fg : rgb; bg : rgb }.

(** [tile_dt]. *)
Record tile := mk_tile {
  walkable : bool;
  transparent : bool;
  dark : graphic;
  light : graphic
}.

(** [np.bool] of a Python integer: every non-zero value is true. *)
Definition np_bool (v : Z) : bool := negb (v =? 0).

Definition new_tile (walkable transparent : Z) (dark light : graphic) : tile :=
  mk_tile (np_bool walkable) (np_bool transparent) dark light.

(** Python's [True] and [False] seen as the integers they are. *)
Definition py_True : Z := 1.
Definition py_False : Z := 0.

Definition SHROUD : graphic := mk_graphic 32 (255, 255, 255) (0, 0, 0).

Definition floor_dark : rgb := (46, 46, 35).
Definition floor_light : rgb := (173, 159, 64).

Definition floor : tile :=
  new_tile py_True py_True
    (mk_graphic 32 (255, 255, 255) floor_dark)
    (mk_graphic 32 (255, 255, 255) floor_light).

Definition wall : tile :=
  new_tile py_False py_False
    (mk_graphic 9617 (0, 0, 0) (36, 35, 27))
    (mk_graphic 9617 (0, 0, 0) (94, 82, 44)).

Definition down_stairs : tile :=
  new_tile py_True py_True
    (mk_graphic 62 (255, 255, 255) floor_dark)
    (mk_graphic 62 (255, 255, 255) floor_light).

(** ** Python values used by actions.py *)

(** [str.capitalize] on ASCII text: first character upper case, the
    others lower case. *)
Definition ascii_upper (c : ascii) : ascii :=
  let n := nat_of_ascii c in
  if ((97 <=? n) && (n <=? 122))%nat then ascii_of_nat (n - 32) else c.

Definition ascii_lower (c : ascii) : ascii :=
  let n := nat_of_ascii c in
  if ((65 <=? n) && (n <=? 90))%nat then ascii_of_nat (n + 32) else c.

Fixpoint lowercase (s : string) : string :=
  match s with
  | EmptyString => EmptyString
  | String c r => String (ascii_lower c) (lowercase r)
  end.

Definition capitalize (s : string) : string :=
  match s with
  | EmptyString => EmptyString
  | String c r => String (ascii_upper c) (lowercase r)
  end.

(** [str(n)] for an integer, as an f-string prints it. *)
Definition str_of_int (n : Z) : string := NilZero.string_of_int (Z.to_int n).

(** Indexing one axis of a numpy array of extent [length l]: an index in
    [0, n) is taken as it is, one in [-n, 0) counts from the end, any other
    raises IndexError ([None] here). *)
Definition np_index {A : Type} (l : list A) (i : Z) : option A :=
  let n := Z.of_nat (length l) in
  if (0 <=? i) && (i <? n) then l !! Z.to_nat i
  else if (- n <=? i) && (i <? 0) then l !! Z.to_nat (i + n)
  else None.

(** [list.remove(v)]: drops the first occurrence; [None] stands for the
    ValueError raised when there is none. *)
Fixpoint list_remove (v : nat) (l : list nat) : option (list nat) :=
  match l with
  | [] => None
  | h :: t => if (h =? v)%nat then Some t
              else match list_remove v t with
                   | Some t' => Some (h :: t')
                   | None => None
                   end
  end.

(** ** Data model *)

(** Identity of a Python object in the store. *)
Definition EntityId : Type := nat.

(** Modelled from the spec: the enumeration [EquipmentType] of the absent
    module equipment_types. The source names only [ARMOR]; [WEAPON] is the
    category that is not armor. *)
Inductive EquipmentType := WEAPON | ARMOR.

Definition EquipmentType_eqb (a b : EquipmentType) : bool :=
  match a, b with
  | WEAPON, WEAPON | ARMOR, ARMOR => true
  | _, _ => false
  end.

(** Modelled from the spec: the style tags of the absent module color that
    actions.py passes to the message log. *)
Inductive color := invalid | descend | player_atk | enemy_atk.

(** Modelled from the spec: fighter stats (current hit points, power,
    defense) of the absent component class Fighter. *)
Record Fighter := mk_Fighter { hp : Z; power : Z; defense : Z }.

(** Modelled from the spec: an inventory is an ordered sequence of items
    with a fixed capacity (absent component class Inventory). *)
Record Inventory := mk_Inventory { capacity : Z; items : list EntityId }.

(** Modelled from the spec: the equipment set maps each slot to an item or
    to nothing (absent component class Equipment). *)
Record Equipment := mk_Equipment {
  weapon : option EntityId;
  armor : option EntityId
}.

(** Modelled from the spec: the equippable capability carries the
    equipment category. *)
Record Equippable := mk_Equippable { equipment_type : EquipmentType }.

(** What owns an entity: the map, or the inventory of an actor. *)
Inductive Parent := InGameMap | InInventory (owner : EntityId).

(** A narration event: text and optional style tag ([None] when the call
    leaves the colour to the log's default). *)
Definition Message : Type := string * option color.

(** Modelled from the spec: the map of the absent module game_map, with
    the fields actions.py reads. [tiles] is the numpy array indexed
    [tiles[x, y]]: a list of columns. [entities] is the entity collection
    in its iteration order. *)
Record GameMap := mk_GameMap {
  width : Z;
  height : Z;
  tiles : list (list tile);
  entities : list EntityId;
  downstairs_location : Z * Z;
  upstairs_location : Z * Z
}.

(** The exceptions a resolution can end with. [DanglingReference] is the
    store's image of a reference to no object, which no Python run
    produces. *)
Inductive exn :=
  | Impossible (reason : string)
  | AttributeError
  | ValueError
  | IndexError
  | NotImplementedError
  | DanglingReference.

Inductive outcome (A : Type) :=
  | Returned (a : A)
  | Raised (e : exn).
Arguments Returned {A} a.
Arguments Raised {A} e.

Section Model.

(** The consumable capability of an item and the world that keeps the
    floors are collaborators outside actions.py. *)
Context {Consumable GameWorld : Type}.

(** Modelled from the spec: the classes Actor and Item of the absent module
    entity. An actor has fighter, inventory and equipment; an item has an
    optional consumable and an optional equippable capability. *)
Inductive Kind :=
  | IsActor (fighter : Fighter) (inventory : Inventory) (equipment : Equipment)
  | IsItem (consumable : option Consumable) (equippable : option Equippable).

Record Entity := mk_Entity {
  x : Z;
  y : Z;
  name : string;
  blocks_movement : bool;
  parent : Parent;
  kind : Kind
}.

(** The engine every action reaches through [self.entity.gamemap.engine],
    together with the store of the objects the references point to. *)
Record Engine := mk_Engine {
  heap : gmap EntityId Entity;
  game_map : GameMap;
  game_world : GameWorld;
  message_log : list Message;
  player : EntityId
}.

Definition set_heap (h : gmap EntityId Entity) (e : Engine) : Engine :=
  mk_Engine h (game_map e) (game_world e) (message_log e) (player e).

Definition set_entities (l : list EntityId) (e : Engine) : Engine :=
  let gm := game_map e in
  mk_Engine (heap e)
    (mk_GameMap (width gm) (height gm) (tiles gm) l
       (downstairs_location gm) (upstairs_location gm))
    (game_world e) (message_log e) (player e).

(** Modelled from the spec: the narration sink takes a (text, style) pair
    and never fails. *)
Definition log_append (m : Message) (e : Engine) : Engine :=
  mk_Engine (heap e) (game_map e) (game_world e) (message_log e ++ [m]) (player e).

(** *** The monad of resolutions *)

Definition M (A : Type) : Type := Engine -> Engine * outcome A.

Definition ret {A : Type} (a : A) : M A := fun e => (e, Returned a).

Definition bind {A B : Type} (m : M A) (k : A -> M B) : M B :=
  fun e => match m e with
           | (e', Returned a) => k a e'
           | (e', Raised err) => (e', Raised err)
           end.

Definition raise {A : Type} (err : exn) : M A := fun e => (e, Raised err).

Definition gets {A : Type} (f : Engine -> A) : M A := fun e => (e, Returned (f e)).

Definition modify (f : Engine -> Engine) : M unit := fun e => (f e, Returned tt).

Notation "'do' v <- m ;; k" := (bind m (fun v => k))
  (at level 10, v name, m at level 99, k at level 200).
Notation "'exec' m ;; k" := (bind m (fun _ => k))
  (at level 10, m at level 99, k at level 200).

(** *** Collaborators outside actions.py *)

(** Modelled from the spec: the Floor Lifecycle collaborator (the absent
    class GameWorld): the floor number, whether a next floor has been
    generated, and the three floor changes, whose effect on the engine is
    theirs to decide. *)
Class FloorLifecycle := {
  current_floor_number : GameWorld -> Z;
  next_floor_exists : Engine -> bool;
  descend_floor : Engine -> Engine;
  generate_floor : Engine -> Engine;
  ascend_floor : Engine -> Engine
}.

(** Modelled from the spec: the activation logic of a consumable, invoked
    with the item action as context (acting entity, item, target); it may
    mutate the engine and may raise. *)
Class ConsumableCapability := {
  activate : Consumable -> EntityId -> EntityId -> Z * Z -> M unit
}.

Context `{FL : FloorLifecycle} `{CC : ConsumableCapability}.

(** *** Store accessors *)

(** Following a reference. *)
Definition deref (i : EntityId) : M Entity :=
  fun e => match heap e !! i with
           | Some ent => (e, Returned ent)
           | None => (e, Raised DanglingReference)
           end.

Definition store (i : EntityId) (ent : Entity) : M unit :=
  modify (fun e => set_heap (<[i := ent]> (heap e)) e).

Definition set_kind (k : Kind) (ent : Entity) : Entity :=
  mk_Entity (x ent) (y ent) (name ent) (blocks_movement ent) (parent ent) k.

(** [entity.fighter], [entity.inventory], [entity.equipment]: attributes
    of actors only. *)
Definition get_fighter (i : EntityId) : M Fighter :=
  do ent <- deref i ;;
  match kind ent with
  | IsActor f _ _ => ret f
  | IsItem _ _ => raise AttributeError
  end.

Definition get_inventory (i : EntityId) : M Inventory :=
  do ent <- deref i ;;
  match kind ent with
  | IsActor _ inv _ => ret inv
  | IsItem _ _ => raise AttributeError
  end.

Definition get_equipment (i : EntityId) : M Equipment :=
  do ent <- deref i ;;
  match kind ent with
  | IsActor _ _ eq => ret eq
  | IsItem _ _ => raise AttributeError
  end.

Definition set_fighter (i : EntityId) (f : Fighter) : M unit :=
  do ent <- deref i ;;
  match kind ent with
  | IsActor _ inv eq => store i (set_kind (IsActor f inv eq) ent)
  | IsItem _ _ => raise AttributeError
  end.

Definition set_inventory (i : EntityId) (inv : Inventory) : M unit :=
  do ent <- deref i ;;
  match kind ent with
  | IsActor f _ eq => store i (set_kind (IsActor f inv eq) ent)
  | IsItem _ _ => raise AttributeError
  end.

Definition set_equipment (i : EntityId) (eq : Equipment) : M unit :=
  do ent <- deref i ;;
  match kind ent with
  | IsActor f inv _ => store i (set_kind (IsActor f inv eq) ent)
  | IsItem _ _ => raise AttributeError
  end.

(** [item.consumable], [item.equippable]: attributes of items only. *)
Definition get_consumable (i : EntityId) : M (option Consumable) :=
  do ent <- deref i ;;
  match kind ent with
  | IsItem c _ => ret c
  | IsActor _ _ _ => raise AttributeError
  end.

Definition get_equippable (i : EntityId) : M (option Equippable) :=
  do ent <- deref i ;;
  match kind ent with
  | IsItem _ q => ret q
  | IsActor _ _ _ => raise AttributeError
  end.

(** [item.equippable.equipment_type]; an item without the capability has
    [None] there and the attribute access fails. *)
Definition get_equipment_type (i : EntityId) : M EquipmentType :=
  do q <- get_equippable i ;;
  match q with
  | Some q => ret (equipment_type q)
  | None => raise AttributeError
  end.

(** [message_log.add_message(text, fg)]. *)
Definition add_message (text : string) (fg : option color) : M unit :=
  modify (log_append (text, fg)).

(** *** World queries *)

Definition is_actor (h : gmap EntityId Entity) (i : EntityId) : bool :=
  match h !! i with
  | Some ent => match kind ent with IsActor _ _ _ => true | IsItem _ _ => false end
  | None => false
  end.

Definition is_item (h : gmap EntityId Entity) (i : EntityId) : bool :=
  match h !! i with
  | Some ent => match kind ent with IsItem _ _ => true | IsActor _ _ _ => false end
  | None => false
  end.

Definition at_location (h : gmap EntityId Entity) (px py : Z) (i : EntityId) : bool :=
  match h !! i with
  | Some ent => (x ent =? px) && (y ent =? py)
  | None => false
  end.

Definition blocks (h : gmap EntityId Entity) (i : EntityId) : bool :=
  match h !! i with
  | Some ent => blocks_movement ent
  | None => false
  end.

(** Modelled from the spec: the bounds check of the map. *)
Definition in_bounds (gm : GameMap) (px py : Z) : bool :=
  (0 <=? px) && (px <? width gm) && (0 <=? py) && (py <? height gm).

(** [tiles[px, py]]: both axes indexed as numpy does. *)
Definition tile_at (gm : GameMap) (px py : Z) : option tile :=
  match np_index (tiles gm) px with
  | Some column => np_index column py
  | None => None
  end.

(** Modelled from the spec: the items of the map, in the storage order of
    the entity collection. *)
Definition map_items (e : Engine) : list EntityId :=
  List.filter (is_item (heap e)) (entities (game_map e)).

(** Modelled from the spec: the movement-blocking entity at a location, if
    any. *)
Definition get_blocking_entity_at_location (e : Engine) (px py : Z) : option EntityId :=
  List.find (fun i => blocks (heap e) i && at_location (heap e) px py i)
    (entities (game_map e)).

(** Modelled from the spec: the actor at a location, if any. *)
Definition get_actor_at_location (e : Engine) (px py : Z) : option EntityId :=
  List.find (fun i => is_actor (heap e) i && at_location (heap e) px py i)
    (entities (game_map e)).

(** *** Absent methods of entities and components *)

(** Modelled from the spec: [Entity.move] commits the position update by
    the given offset. *)
Definition move (i : EntityId) (dx dy : Z) : M unit :=
  do ent <- deref i ;;
  store i (mk_Entity (x ent + dx) (y ent + dy) (name ent)
             (blocks_movement ent) (parent ent) (kind ent)).

Definition slot_get (eq : Equipment) (s : EquipmentType) : option EntityId :=
  match s with WEAPON => weapon eq | ARMOR => armor eq end.

Definition slot_set (eq : Equipment) (s : EquipmentType) (v : option EntityId) : Equipment :=
  match s with
  | WEAPON => mk_Equipment v (armor eq)
  | ARMOR => mk_Equipment (weapon eq) v
  end.

Definition holds (o : option EntityId) (i : EntityId) : bool :=
  match o with Some j => (j =? i)%nat | None => false end.

(** Modelled from the spec: an item is equipped when some slot of the
    equipment mapping holds it. *)
Definition item_is_equipped (eq : Equipment) (i : EntityId) : bool :=
  holds (weapon eq) i || holds (armor eq) i.

(** Modelled from the spec: [Equipment.toggle_equip] toggles the equip
    state of the item in the slot of its category: an item equipped there
    is unequipped, any other is equipped there. *)
Definition toggle_equip (actor item : EntityId) : M unit :=
  do s <- get_equipment_type item ;;
  do eq <- get_equipment actor ;;
  if holds (slot_get eq s) item
  then set_equipment actor (slot_set eq s None)
  else set_equipment actor (slot_set eq s (Some item)).

(** Modelled from the spec: [Inventory.drop] removes the item from the
    inventory sequence and adds it back to the entity collection of the
    world at the actor's current position. *)
Definition drop (actor item : EntityId) : M unit :=
  do inv <- get_inventory actor ;;
  match list_remove item (items inv) with
  | None => raise ValueError
  | Some rest =>
      exec set_inventory actor (mk_Inventory (capacity inv) rest) ;;
      do a <- deref actor ;;
      do it <- deref item ;;
      exec store item (mk_Entity (x a) (y a) (name it) (blocks_movement it)
                    InGameMap (kind it)) ;;
      modify (fun e => set_entities (entities (game_map e) ++ [item]) e)
  end.

(** ** actions.py *)

(** The action classes, each with the fields its constructor stores. *)
Inductive Action :=
  | PickupAction (entity : EntityId)
  | ItemAction (entity item : EntityId) (target_xy : Z * Z)
  | DropAction (entity item : EntityId) (target_xy : Z * Z)
  | EquipAction (entity item : EntityId)
  | WaitAction (entity : EntityId)
  | TakeStairsAction (entity : EntityId) (downward : bool)
  | MeleeAction (entity : EntityId) (dx dy : Z)
  | MovementAction (entity : EntityId) (dx dy : Z)
  | BumpAction (entity : EntityId) (dx dy : Z).

(** [ItemAction.__init__]: a target left out (or falsy) becomes the acting
    entity's position at construction time. *)
Definition ItemAction_init (e : Engine) (entity item : EntityId)
    (target_xy : option (Z * Z)) : option (EntityId * EntityId * (Z * Z)) :=
  match target_xy with
  | Some t => Some (entity, item, t)
  | None => match heap e !! entity with
            | Some ent => Some (entity, item, (x ent, y ent))
            | None => None
            end
  end.

(** [ActionWithDirection.dest_xy]. *)
Definition dest_xy (entity : EntityId) (dx dy : Z) : M (Z * Z) :=
  do ent <- deref entity ;;
  ret (x ent + dx, y ent + dy).

(** [ActionWithDirection.blocking_entity]. *)
Definition blocking_entity (entity : EntityId) (dx dy : Z) : M (option EntityId) :=
  do d <- dest_xy entity dx dy ;;
  gets (fun e => get_blocking_entity_at_location e (fst d) (snd d)).

(** [ActionWithDirection.target_actor]. *)
Definition target_actor (entity : EntityId) (dx dy : Z) : M (option EntityId) :=
  do d <- dest_xy entity dx dy ;;
  gets (fun e => get_actor_at_location e (fst d) (snd d)).

(** [ItemAction.target_actor]. *)
Definition ItemAction_target_actor (target_xy : Z * Z) : M (option EntityId) :=
  gets (fun e => get_actor_at_location e (fst target_xy) (snd target_xy)).

(** The loop of [PickupAction.perform] over the remaining items of the
    map; running off its end reaches the final raise. *)
Fixpoint PickupAction_loop (entity : EntityId) (actor_location_x actor_location_y : Z)
    (remaining : list EntityId) : M unit :=
  match remaining with
  | [] => raise (Impossible "There is nothing here to pick up.")
  | item :: rest =>
      do it <- deref item ;;
      if (actor_location_x =? x it) && (actor_location_y =? y it) then
        do inventory <- get_inventory entity ;;
        if Z.of_nat (length (items inventory)) >=? capacity inventory then
          raise (Impossible "Your inventory is full.")
        else
          do ents <- gets (fun e => entities (game_map e)) ;;
          match list_remove item ents with
          | None => raise ValueError
          | Some ents' =>
              exec modify (set_entities ents') ;;
              do it <- deref item ;;
              exec store item (mk_Entity (x it) (y it) (name it) (blocks_movement it)
                            (InInventory entity) (kind it)) ;;
              do inventory <- get_inventory entity ;;
              exec set_inventory entity
                     (mk_Inventory (capacity inventory) (items inventory ++ [item])) ;;
              add_message ("You pick up the " +:+ name it +:+ ".") None
          end
      else PickupAction_loop entity actor_location_x actor_location_y rest
  end.

Definition PickupAction_perform (entity : EntityId) : M unit :=
  do ent <- deref entity ;;
  let actor_location_x := x ent in
  let actor_location_y := y ent in
  do inventory <- get_inventory entity ;;
  do its <- gets map_items ;;
  PickupAction_loop entity actor_location_x actor_location_y its.

Definition ItemAction_perform (entity item : EntityId) (target_xy : Z * Z) : M unit :=
  do c <- get_consumable item ;;
  match c with
  | Some c => activate c entity item target_xy
  | None => ret tt
  end.

Definition DropAction_perform (entity item : EntityId) : M unit :=
  do eq <- get_equipment entity ;;
  if item_is_equipped eq item then
    do t <- get_equipment_type item ;;
    if EquipmentType_eqb t ARMOR then
      add_message "You cannot drop something you are wearing." (Some invalid)
    else
      exec toggle_equip entity item ;;
      drop entity item
  else
    drop entity item.

Definition EquipAction_perform (entity item : EntityId) : M unit :=
  toggle_equip entity item.

Definition WaitAction_perform : M unit := ret tt.

(** Whether the entity stands on the given one of the two stair locations
    of the current map. *)
Definition stands_on (entity : EntityId) (loc : GameMap -> Z * Z) : M bool :=
  do ent <- deref entity ;;
  do l <- gets (fun e => loc (game_map e)) ;;
  ret ((x ent =? fst l) && (y ent =? snd l)).

Definition TakeStairsAction_perform (entity : EntityId) (downward : bool) : M unit :=
  do on_down <- stands_on entity downstairs_location ;;
  exec (if on_down then
          if downward then
            do ex <- gets next_floor_exists ;;
            exec (if ex then modify descend_floor else modify generate_floor) ;;
            add_message "You descend the staircase." (Some descend)
          else
            raise (Impossible "You cannot go up this staircase.")
        else ret tt) ;;
  do on_up <- stands_on entity upstairs_location ;;
  if on_up then
    if downward then ret tt
    else
      do n <- gets (fun e => current_floor_number (game_world e)) ;;
      if n =? 1 then
        raise (Impossible "You have not finished your mission. You may not leave.")
      else
        exec modify ascend_floor ;;
        add_message "You ascend the staircase." (Some descend)
  else ret tt.

Definition MeleeAction_perform (entity : EntityId) (dx dy : Z) : M unit :=
  do target <- target_actor entity dx dy ;;
  match target with
  | None => raise (Impossible "Nothing to attack")
  | Some target =>
      do attacker <- get_fighter entity ;;
      do defender <- get_fighter target ;;
      let damage := power attacker - defense defender in
      do ent <- deref entity ;;
      do tgt <- deref target ;;
      let attack_desc := capitalize (name ent) +:+ " attacks " +:+ name tgt in
      do p <- gets player ;;
      let attack_color := if (entity =? p)%nat then player_atk else enemy_atk in
      if damage >? 0 then
        exec add_message (attack_desc +:+ " for " +:+ str_of_int damage +:+ " hit points.")
               (Some attack_color) ;;
        do f <- get_fighter target ;;
        set_fighter target (mk_Fighter (hp f - damage) (power f) (defense f))
      else
        add_message (attack_desc +:+ " but does no damage.") (Some attack_color)
  end.

Definition MovementAction_perform (entity : EntityId) (dx dy : Z) : M unit :=
  do d <- dest_xy entity dx dy ;;
  let dest_x := fst d in
  let dest_y := snd d in
  do gm <- gets game_map ;;
  if negb (in_bounds gm dest_x dest_y) then
    raise (Impossible "That way is blocked.")
  else
    match tile_at gm dest_x dest_y with
    | None => raise IndexError
    | Some t =>
        if negb (walkable t) then
          raise (Impossible "That way is blocked.")
        else
          do b <- gets (fun e => get_blocking_entity_at_location e dest_x dest_y) ;;
          match b with
          | Some _ => raise (Impossible "That way is blocked.")
          | None => move entity dx dy
          end
    end.

Definition BumpAction_perform (entity : EntityId) (dx dy : Z) : M unit :=
  do t <- target_actor entity dx dy ;;
  match t with
  | Some _ => MeleeAction_perform entity dx dy
  | None => MovementAction_perform entity dx dy
  end.

(** [Action.perform] and [ActionWithDirection.perform]: the abstract
    bases, overridden by every class above. *)
Definition Action_perform : M unit := raise NotImplementedError.

(** Dynamic dispatch of [perform] on the class of the action. *)
Definition perform (a : Action) : M unit :=
  match a with
  | PickupAction entity => PickupAction_perform entity
  | ItemAction entity item target_xy => ItemAction_perform entity item target_xy
  | DropAction entity item _ => DropAction_perform entity item
  | EquipAction entity item => EquipAction_perform entity item
  | WaitAction _ => WaitAction_perform
  | TakeStairsAction entity downward => TakeStairsAction_perform entity downward
  | MeleeAction entity dx dy => MeleeAction_perform entity dx dy
  | MovementAction entity dx dy => MovementAction_perform entity dx dy
  | BumpAction entity dx dy => BumpAction_perform entity dx dy
  end.


(** *** Read-only views of the engine used to state properties *)

Definition fighter_of (e : Engine) (i : EntityId) : option Fighter :=
  match heap e !! i with
  | Some ent => match kind ent with IsActor f _ _ => Some f | IsItem _ _ => None end
  | None => None
  end.

Definition inventory_of (e : Engine) (i : EntityId) : option Inventory :=
  match heap e !! i with
  | Some ent => match kind ent with IsActor _ inv _ => Some inv | IsItem _ _ => None end
  | None => None
  end.

Definition equipment_of (e : Engine) (i : EntityId) : option Equipment :=
  match heap e !! i with
  | Some ent => match kind ent with IsActor _ _ eq => Some eq | IsItem _ _ => None end
  | None => None
  end.

Definition position_of (e : Engine) (i : EntityId) : option (Z * Z) :=
  match heap e !! i with
  | Some ent => Some (x ent, y ent)
  | None => None
  end.

(** The equipment category of an item that has the equippable capability. *)
Definition category_of (e : Engine) (i : EntityId) : option EquipmentType :=
  match heap e !! i with
  | Some ent => match kind ent with
                | IsItem _ (Some q) => Some (equipment_type q)
                | _ => None
                end
  | None => None
  end.

(** The first item of the map, in iteration order, on the given tile. *)
Definition first_item_at (e : Engine) (px py : Z) : option EntityId :=
  List.find (at_location (heap e) px py) (map_items e).

(** The tile array has the shape (width, height) of the map. *)
Definition tiles_shaped (gm : GameMap) : Prop :=
  Z.of_nat (length (tiles gm)) = width gm /\
  Forall (fun column => Z.of_nat (length column) = height gm) (tiles gm).

(** Every slot of the equipment holds only items of the slot's category. *)
Definition slots_match (e : Engine) (eq : Equipment) : Prop :=
  forall s i, slot_get eq s = Some i -> category_of e i = Some s.

(** The three reasons for which a destination refuses a move. *)
Definition destination_blocked (e : Engine) (px py : Z) : Prop :=
  in_bounds (game_map e) px py = false
  \/ (exists t, tile_at (game_map e) px py = Some t /\ walkable t = false)
  \/ is_Some (get_blocking_entity_at_location e px py).

(** *** Shapes of a resolution with respect to the Impossible rejection *)

(** The computation never changes the engine, whatever it returns or
    raises. *)
Definition readonly {A : Type} (m : M A) : Prop :=
  forall e e' o, m e = (e', o) -> e' = e.

(** The computation never ends in an Impossible rejection. *)
Definition never_Impossible {A : Type} (m : M A) : Prop :=
  forall e e' reason, m e <> (e', Raised (Impossible reason)).

(** Whenever the computation ends in an Impossible rejection, the engine
    is the one it started from. *)
Definition validates_first {A : Type} (m : M A) : Prop :=
  forall e e' reason, m e = (e', Raised (Impossible reason)) -> e' = e.

(** No two movement-blocking entities of the map stand on one tile. *)
Definition no_stacking (e : Engine) : Prop :=
  forall i j a b,
    i ∈ entities (game_map e) -> j ∈ entities (game_map e) ->
    heap e !! i = Some a -> heap e !! j = Some b ->
    blocks_movement a = true -> blocks_movement b = true ->
    (x a, y a) = (x b, y b) ->
    i = j.

End Model.

Arguments Kind : clear implicits.
Arguments Entity : clear implicits.
Arguments Engine : clear implicits.
Arguments M : clear implicits.
Arguments FloorLifecycle : clear implicits.
Arguments ConsumableCapability : clear implicits.
Arguments Action : clear implicits.

(** ** A small concrete world

    One floor of 4 x 3 tiles with a wall column on the right; the player
    (0) stands at (1,1) next to an orc (1) at (2,1); a potion (2) lies
    under the player and a scroll (5) one tile up; the player carries a
    dagger (3) and a leather armor (4), both equipped. *)

Inductive demo_consumable := demo_healing.

Definition demo_tiles : list (list tile) :=
  [ [floor; floor; floor]; [floor; floor; down_stairs];
    [floor; floor; floor]; [wall; wall; wall] ].

Definition demo_map : GameMap :=
  mk_GameMap 4 3 demo_tiles [0%nat; 1%nat; 5%nat; 2%nat] (1, 2) (1, 1).

Definition demo_player : Entity demo_consumable :=
  mk_Entity 1 1 "player" true InGameMap
    (IsActor (mk_Fighter 30 5 2) (mk_Inventory 3 [3%nat; 4%nat])
       (mk_Equipment (Some 3%nat) (Some 4%nat))).

Definition demo_orc : Entity demo_consumable :=
  mk_Entity 2 1 "orc" true InGameMap
    (IsActor (mk_Fighter 10 3 0) (mk_Inventory 0 []) (mk_Equipment None None)).

Definition demo_potion : Entity demo_consumable :=
  mk_Entity 1 1 "health potion" false InGameMap (IsItem (Some demo_healing) None).

Definition demo_scroll : Entity demo_consumable :=
  mk_Entity 1 0 "scroll" false InGameMap (IsItem None None).

Definition demo_dagger : Entity demo_consumable :=
  mk_Entity 0 0 "dagger" false (InInventory 0%nat)
    (IsItem None (Some (mk_Equippable WEAPON))).

Definition demo_leather : Entity demo_consumable :=
  mk_Entity 0 0 "leather armor" false (InInventory 0%nat)
    (IsItem None (Some (mk_Equippable ARMOR))).

Definition demo_heap : gmap EntityId (Entity demo_consumable) :=
  <[0%nat := demo_player]> (<[1%nat := demo_orc]> (<[2%nat := demo_potion]>
  (<[3%nat := demo_dagger]> (<[4%nat := demo_leather]> (<[5%nat := demo_scroll]> ∅))))).

(** The demo world keeps nothing but the floor number. *)
Definition demo_engine (floor_number : Z) : Engine demo_consumable Z :=
  mk_Engine demo_heap demo_map floor_number [] 0%nat.

Definition demo_set_floor (n : Z) (e : Engine demo_consumable Z) : Engine demo_consumable Z :=
  mk_Engine (heap e) (game_map e) n (message_log e) (player e).

#[local] Instance demo_floors : FloorLifecycle demo_consumable Z := {|
  current_floor_number := fun n => n;
  next_floor_exists := fun _ => false;
  descend_floor := fun e => demo_set_floor (game_world e + 1) e;
  generate_floor := fun e => demo_set_floor (game_world e + 1) e;
  ascend_floor := fun e => demo_set_floor (game_world e - 1) e
|}.

(** The demo potion refuses to be drunk at full health, before it changes
    anything. *)
#[local] Instance demo_activation : ConsumableCapability demo_consumable Z := {|
  activate := fun _ _ _ _ => raise (Impossible "Your health is already full.")
|}.

(** The player with a full inventory. *)
Definition demo_full_engine : Engine demo_consumable Z :=
  set_heap (<[0%nat := set_kind (IsActor (mk_Fighter 30 5 2) (mk_Inventory 2 [3%nat; 4%nat])
                                    (mk_Equipment (Some 3%nat) (Some 4%nat))) demo_player]>
              demo_heap) (demo_engine 1).

(** The player one step down, on the down-stairs tile. *)
Definition demo_engine_on_downstairs (floor_number : Z) : Engine demo_consumable Z :=
  set_heap (<[0%nat := mk_Entity 1 2 "player" true InGameMap (kind demo_player)]> demo_heap)
    (demo_engine floor_number).

(** The player wearing the scroll, an item without equippable capability,
    in the armor slot. *)
Definition demo_scroll_worn_engine : Engine demo_consumable Z :=
  set_heap (<[0%nat := set_kind (IsActor (mk_Fighter 30 5 2) (mk_Inventory 3 [3%nat; 5%nat])
                                    (mk_Equipment (Some 3%nat) (Some 5%nat))) demo_player]>
              demo_heap) (demo_engine 1).

(** ** Properties of the resolutions *)

Section Properties.

Context {Consumable GameWorld : Type}.
Context `{FL : FloorLifecycle Consumable GameWorld}.
Context `{CC : ConsumableCapability Consumable GameWorld}.

Implicit Types (e : Engine Consumable GameWorld) (ent : Entity Consumable).
Implicit Types (entity item target : EntityId) (dx dy px py : Z).

(** *** Running the monad *)

Lemma run_deref e i ent :
  heap e !! i = Some ent -> deref i e = (e, Returned ent).
Proof. intros Hi. unfold deref. by rewrite Hi. Qed.

Lemma run_bind {A B : Type} (m : M Consumable GameWorld A) (k : A -> M Consumable GameWorld B) e e1 a :
  m e = (e1, Returned a) -> bind m k e = k a e1.
Proof. intros Hm. unfold bind. by rewrite Hm. Qed.

Lemma run_dest_xy e entity ent dx dy :
  heap e !! entity = Some ent ->
  dest_xy entity dx dy e = (e, Returned (x ent + dx, y ent + dy)).
Proof. intros Hi. unfold dest_xy. by rewrite (run_bind _ _ _ _ _ (run_deref _ _ _ Hi)). Qed.

Lemma run_target_actor e entity ent dx dy :
  heap e !! entity = Some ent ->
  target_actor entity dx dy e
  = (e, Returned (get_actor_at_location e (x ent + dx) (y ent + dy))).
Proof.
  intros Hi. unfold target_actor.
  by rewrite (run_bind _ _ _ _ _ (run_dest_xy _ _ _ dx dy Hi)).
Qed.

Lemma run_get_inventory e entity ent f inv eq :
  heap e !! entity = Some ent -> kind ent = IsActor f inv eq ->
  get_inventory entity e = (e, Returned inv).
Proof.
  intros Hi Hk. unfold get_inventory.
  rewrite (run_bind _ _ _ _ _ (run_deref _ _ _ Hi)). by rewrite Hk.
Qed.

Lemma run_get_equipment e entity ent f inv eq :
  heap e !! entity = Some ent -> kind ent = IsActor f inv eq ->
  get_equipment entity e = (e, Returned eq).
Proof.
  intros Hi Hk. unfold get_equipment.
  rewrite (run_bind _ _ _ _ _ (run_deref _ _ _ Hi)). by rewrite Hk.
Qed.

Lemma run_get_fighter e entity ent f inv eq :
  heap e !! entity = Some ent -> kind ent = IsActor f inv eq ->
  get_fighter entity e = (e, Returned f).
Proof.
  intros Hi Hk. unfold get_fighter.
  rewrite (run_bind _ _ _ _ _ (run_deref _ _ _ Hi)). by rewrite Hk.
Qed.

Lemma run_get_equippable e item ent c q :
  heap e !! item = Some ent -> kind ent = IsItem c q ->
  get_equippable item e = (e, Returned q).
Proof.
  intros Hi Hk. unfold get_equippable.
  rewrite (run_bind _ _ _ _ _ (run_deref _ _ _ Hi)). by rewrite Hk.
Qed.

Lemma run_get_equipment_type e item ent c q :
  heap e !! item = Some ent -> kind ent = IsItem c (Some q) ->
  get_equipment_type item e = (e, Returned (equipment_type q)).
Proof.
  intros Hi Hk. unfold get_equipment_type.
  by rewrite (run_bind _ _ _ _ _ (run_get_equippable _ _ _ _ _ Hi Hk)).
Qed.

Lemma run_set_inventory e entity ent f inv eq inv' :
  heap e !! entity = Some ent -> kind ent = IsActor f inv eq ->
  set_inventory entity inv' e
  = (set_heap (<[entity := set_kind (IsActor f inv' eq) ent]> (heap e)) e, Returned tt).
Proof.
  intros Hi Hk. unfold set_inventory.
  rewrite (run_bind _ _ _ _ _ (run_deref _ _ _ Hi)). by rewrite Hk.
Qed.

Lemma run_set_equipment e entity ent f inv eq eq' :
  heap e !! entity = Some ent -> kind ent = IsActor f inv eq ->
  set_equipment entity eq' e
  = (set_heap (<[entity := set_kind (IsActor f inv eq') ent]> (heap e)) e, Returned tt).
Proof.
  intros Hi Hk. unfold set_equipment.
  rewrite (run_bind _ _ _ _ _ (run_deref _ _ _ Hi)). by rewrite Hk.
Qed.

Lemma run_set_fighter e entity ent f inv eq f' :
  heap e !! entity = Some ent -> kind ent = IsActor f inv eq ->
  set_fighter entity f' e
  = (set_heap (<[entity := set_kind (IsActor f' inv eq) ent]> (heap e)) e, Returned tt).
Proof.
  intros Hi Hk. unfold set_fighter.
  rewrite (run_bind _ _ _ _ _ (run_deref _ _ _ Hi)). by rewrite Hk.
Qed.

(** *** C1: the dispatch of BumpAction *)

(** C1. For every acting entity and offset, resolving a BumpAction gives
    the very result (final engine state with positions, hit points and
    narration, and the success or the exception) of the MeleeAction with
    the same entity and offset when an actor is at the destination, and of
    the MovementAction with the same entity and offset when none is. *)
Theorem BumpAction_dispatch e entity ent dx dy :
  heap e !! entity = Some ent ->
  (forall target,
      get_actor_at_location e (x ent + dx) (y ent + dy) = Some target ->
      perform (BumpAction entity dx dy) e = perform (MeleeAction entity dx dy) e)
  /\ (get_actor_at_location e (x ent + dx) (y ent + dy) = None ->
      perform (BumpAction entity dx dy) e = perform (MovementAction entity dx dy) e).
Proof.
  intros Hi. split.
  - intros target Ht. cbn [perform]. unfold BumpAction_perform.
    rewrite (run_bind _ _ _ _ _ (run_target_actor _ _ _ dx dy Hi)).
    by rewrite Ht.
  - intros Ht. cbn [perform]. unfold BumpAction_perform.
    rewrite (run_bind _ _ _ _ _ (run_target_actor _ _ _ dx dy Hi)).
    by rewrite Ht.
Qed.

(** *** C3, C9: MovementAction *)

Lemma np_index_in_range {A : Type} (l : list A) (i : Z) :
  0 <= i < Z.of_nat (length l) ->
  np_index l i = l !! Z.to_nat i /\ is_Some (l !! Z.to_nat i).
Proof.
  intros Hr. unfold np_index.
  assert ((0 <=? i) && (i <? Z.of_nat (length l)) = true) as ->.
  { apply andb_true_iff. split; [apply Z.leb_le | apply Z.ltb_lt]; lia. }
  split; [done |]. apply lookup_lt_is_Some. lia.
Qed.

(** On a map whose tile array has the map's shape, an in-bounds lookup
    takes the tile at that very column and row. *)
Lemma tile_at_in_bounds (gm : GameMap) px py :
  tiles_shaped gm -> in_bounds gm px py = true ->
  exists column t,
    tiles gm !! Z.to_nat px = Some column /\ column !! Z.to_nat py = Some t
    /\ tile_at gm px py = Some t.
Proof.
  intros [Hw Hh] Hb. unfold in_bounds in Hb.
  repeat (apply andb_true_iff in Hb as [Hb ?]).
  apply Z.leb_le in Hb.
  repeat match goal with
         | H : (_ <=? _) = true |- _ => apply Z.leb_le in H
         | H : (_ <? _) = true |- _ => apply Z.ltb_lt in H
         end.
  destruct (np_index_in_range (tiles gm) px) as [Hx [column Hc]]; [lia |].
  assert (Z.of_nat (length column) = height gm) as Hlen.
  { eapply (proj1 (Forall_lookup _ _) Hh); eauto. }
  destruct (np_index_in_range column py) as [Hy [t Ht]]; [lia |].
  exists column, t. repeat split; [done | done |].
  unfold tile_at. rewrite Hx, Hc. by rewrite Hy.
Qed.

Lemma run_move e entity ent dx dy :
  heap e !! entity = Some ent ->
  move entity dx dy e
  = (set_heap (<[entity := mk_Entity (x ent + dx) (y ent + dy) (name ent)
                             (blocks_movement ent) (parent ent) (kind ent)]> (heap e)) e,
     Returned tt).
Proof.
  intros Hi. unfold move. by rewrite (run_bind _ _ _ _ _ (run_deref _ _ _ Hi)).
Qed.

Lemma MovementAction_unfold e entity ent dx dy :
  heap e !! entity = Some ent ->
  perform (MovementAction entity dx dy) e
  = if negb (in_bounds (game_map e) (x ent + dx) (y ent + dy)) then
      (e, Raised (Impossible "That way is blocked."))
    else match tile_at (game_map e) (x ent + dx) (y ent + dy) with
         | None => (e, Raised IndexError)
         | Some t =>
             if negb (walkable t) then (e, Raised (Impossible "That way is blocked."))
             else match get_blocking_entity_at_location e (x ent + dx) (y ent + dy) with
                  | Some _ => (e, Raised (Impossible "That way is blocked."))
                  | None => move entity dx dy e
                  end
         end.
Proof.
  intros Hi. cbn [perform]. unfold MovementAction_perform.
  rewrite (run_bind _ _ _ _ _ (run_dest_xy _ _ _ dx dy Hi)).
  cbn [fst snd]. unfold bind at 1, gets at 1.
  destruct (in_bounds _ _ _); cbn [negb]; [| done].
  destruct (tile_at _ _ _) as [t |]; [| done].
  destruct (walkable t); cbn [negb]; [| done].
  unfold bind, gets.
  by destruct (get_blocking_entity_at_location _ _ _).
Qed.

(** C3. A MovementAction whose destination (x+dx, y+dy) is out of the map
    bounds, or has a tile that is not walkable, or is occupied by a
    movement-blocking entity, fails with Impossible and leaves the engine,
    hence the position of the acting actor, as it was; when none of the
    three holds it succeeds and the position of the actor is exactly
    (x+dx, y+dy). *)
Theorem MovementAction_blocked_or_moved e entity ent dx dy :
  heap e !! entity = Some ent ->
  tiles_shaped (game_map e) ->
  (destination_blocked e (x ent + dx) (y ent + dy) ->
   perform (MovementAction entity dx dy) e
   = (e, Raised (Impossible "That way is blocked.")))
  /\ (~ destination_blocked e (x ent + dx) (y ent + dy) ->
      exists e',
        perform (MovementAction entity dx dy) e = (e', Returned tt)
        /\ position_of e' entity = Some (x ent + dx, y ent + dy)).
Proof.
  intros Hi Hshape. rewrite (MovementAction_unfold _ _ _ dx dy Hi).
  destruct (in_bounds (game_map e) (x ent + dx) (y ent + dy)) eqn:Hb; cbn [negb].
  - destruct (tile_at_in_bounds _ _ _ Hshape Hb) as (column & t & _ & _ & Ht).
    rewrite Ht.
    destruct (walkable t) eqn:Hwalk; cbn [negb].
    + destruct (get_blocking_entity_at_location e (x ent + dx) (y ent + dy)) as [b |] eqn:Hblock.
      * split; [done |]. intros Hfree. exfalso. apply Hfree.
        right. right. by exists b.
      * split.
        -- intros [Hout | [(t' & Ht' & Hw') | [b Hb']]]; congruence.
        -- intros _. rewrite (run_move _ _ _ dx dy Hi).
           eexists. split; [done |].
           unfold position_of. cbn. by rewrite lookup_insert_eq.
    + split; [done |]. intros Hfree. exfalso. apply Hfree.
      right. left. by exists t.
  - split; [done |]. intros Hfree. exfalso. apply Hfree. by left.
Qed.

(** C9. MovementAction checks the bounds of the destination before it
    indexes the tile array: an out-of-bounds destination is refused with
    Impossible whatever the tile array holds, the lookup of an in-bounds
    destination in an array of the map's shape takes the tile at that
    column and row, and so the resolution never ends in the IndexError of
    an out-of-range lookup. *)
Theorem MovementAction_lookup_in_bounds e entity ent dx dy :
  heap e !! entity = Some ent ->
  (in_bounds (game_map e) (x ent + dx) (y ent + dy) = false ->
   perform (MovementAction entity dx dy) e
   = (e, Raised (Impossible "That way is blocked.")))
  /\ (tiles_shaped (game_map e) ->
      in_bounds (game_map e) (x ent + dx) (y ent + dy) = true ->
      exists column t,
        tiles (game_map e) !! Z.to_nat (x ent + dx) = Some column
        /\ column !! Z.to_nat (y ent + dy) = Some t
        /\ tile_at (game_map e) (x ent + dx) (y ent + dy) = Some t)
  /\ (tiles_shaped (game_map e) ->
      snd (perform (MovementAction entity dx dy) e) <> Raised IndexError).
Proof.
  intros Hi. rewrite (MovementAction_unfold _ _ _ dx dy Hi).
  split; [| split].
  - by intros ->.
  - intros Hshape Hb. by apply tile_at_in_bounds.
  - intros Hshape.
    destruct (in_bounds (game_map e) (x ent + dx) (y ent + dy)) eqn:Hb; cbn [negb]; [| done].
    destruct (tile_at_in_bounds _ _ _ Hshape Hb) as (column & t & _ & _ & Ht).
    rewrite Ht.
    destruct (walkable t); cbn [negb]; [| done].
    destruct (get_blocking_entity_at_location e (x ent + dx) (y ent + dy)); [done |].
    by rewrite (run_move _ _ _ dx dy Hi).
Qed.

(** *** C4: MeleeAction *)

Lemma get_actor_at_location_Some e px py target :
  get_actor_at_location e px py = Some target ->
  exists tgt f inv eq,
    heap e !! target = Some tgt /\ kind tgt = IsActor f inv eq
    /\ x tgt = px /\ y tgt = py.
Proof.
  intros Hfind. apply find_some in Hfind as [_ Hp].
  apply andb_true_iff in Hp as [Ha Hl].
  unfold is_actor in Ha. unfold at_location in Hl.
  destruct (heap e !! target) as [tgt |]; [| done].
  destruct (kind tgt) as [f inv eq | c q] eqn:Hk; [| done].
  apply andb_true_iff in Hl as [Hx Hy].
  apply Z.eqb_eq in Hx, Hy.
  by exists tgt, f, inv, eq.
Qed.

(** C4. A MeleeAction with a target actor at the destination succeeds;
    with damage = attacker power - defender defense, a positive damage
    lowers the hit points of the defender by exactly damage and a damage
    of zero or less leaves them (and every entity) as they were; with no
    actor at the destination the action fails with Impossible and changes
    nothing. *)
Theorem MeleeAction_damage e entity ent atk inv eq dx dy :
  heap e !! entity = Some ent ->
  kind ent = IsActor atk inv eq ->
  (forall target,
      get_actor_at_location e (x ent + dx) (y ent + dy) = Some target ->
      exists def e',
        fighter_of e target = Some def
        /\ perform (MeleeAction entity dx dy) e = (e', Returned tt)
        /\ (power atk - defense def > 0 ->
            fighter_of e' target
            = Some (mk_Fighter (hp def - (power atk - defense def)) (power def) (defense def)))
        /\ (power atk - defense def <= 0 ->
            fighter_of e' target = Some def /\ heap e' = heap e))
  /\ (get_actor_at_location e (x ent + dx) (y ent + dy) = None ->
      perform (MeleeAction entity dx dy) e = (e, Raised (Impossible "Nothing to attack"))).
Proof.
  intros Hi Hk. split.
  - intros target Ht.
    destruct (get_actor_at_location_Some _ _ _ _ Ht)
      as (tgt & def & tinv & teq & Hti & Htk & _ & _).
    assert (fighter_of e target = Some def) as Hdef.
    { unfold fighter_of. by rewrite Hti, Htk. }
    exists def. cbn [perform]. unfold MeleeAction_perform.
    rewrite (run_bind _ _ _ _ _ (run_target_actor _ _ _ dx dy Hi)), Ht.
    rewrite (run_bind _ _ _ _ _ (run_get_fighter _ _ _ _ _ _ Hi Hk)).
    rewrite (run_bind _ _ _ _ _ (run_get_fighter _ _ _ _ _ _ Hti Htk)).
    rewrite (run_bind _ _ _ _ _ (run_deref _ _ _ Hi)).
    rewrite (run_bind _ _ _ _ _ (run_deref _ _ _ Hti)).
    unfold bind at 1, gets at 1.
    destruct (power atk - defense def >? 0) eqn:Hd.
    + unfold bind at 1, add_message at 1, modify at 1.
      set (e1 := log_append _ e).
      assert (heap e1 !! target = Some tgt) as Hti1 by done.
      rewrite (run_bind _ _ _ _ _ (run_get_fighter _ _ _ _ _ _ Hti1 Htk)).
      rewrite (run_set_fighter _ _ _ _ _ _ _ Hti1 Htk).
      eexists. split; [done |]. split; [done |]. split.
      * intros _. unfold fighter_of. cbn. by rewrite lookup_insert_eq.
      * intros Hle. apply Z.gtb_lt in Hd. lia.
    + eexists. split; [done |]. split; [done |]. split.
      * intros Hgt. rewrite Z.gtb_ltb in Hd. apply Z.ltb_ge in Hd. lia.
      * intros _. split; [| done]. exact Hdef.
  - intros Ht. cbn [perform]. unfold MeleeAction_perform.
    by rewrite (run_bind _ _ _ _ _ (run_target_actor _ _ _ dx dy Hi)), Ht.
Qed.

(** *** C5, C10: PickupAction *)

Lemma list_remove_elem (v : nat) (l : list nat) :
  v ∈ l -> exists l', list_remove v l = Some l'.
Proof.
  induction l as [| h t IH]; intros Hin.
  - by apply elem_of_nil in Hin.
  - cbn. destruct (h =? v)%nat eqn:Hhv; [by eexists |].
    apply elem_of_cons in Hin as [-> | Hin].
    + by rewrite Nat.eqb_refl in Hhv.
    + destruct (IH Hin) as [t' ->]. by eexists.
Qed.

(** Removing an element from a collection without repetitions leaves no
    copy of it behind. *)
Lemma list_remove_NoDup (v : nat) (l l' : list nat) :
  NoDup l -> list_remove v l = Some l' -> v ∉ l'.
Proof.
  revert l'. induction l as [| h t IH]; intros l' Hnd Hr; [done |].
  apply NoDup_cons in Hnd as [Hh Hnd].
  cbn in Hr. destruct (h =? v)%nat eqn:Hhv.
  - apply Nat.eqb_eq in Hhv as ->. by injection Hr as <-.
  - destruct (list_remove v t) as [t' |] eqn:Ht; [| done].
    injection Hr as <-. apply Nat.eqb_neq in Hhv.
    intros Hin. apply elem_of_cons in Hin as [-> | Hin]; [done |].
    by apply (IH t').
Qed.

Lemma map_items_spec e i :
  i ∈ map_items e <-> i ∈ entities (game_map e) /\ is_item (heap e) i = true.
Proof.
  unfold map_items. rewrite !list_elem_of_In. apply List.filter_In.
Qed.

(** The loop passes over the items that are elsewhere and stops at the
    first one on the actor's tile. *)
Lemma PickupAction_loop_scan e entity px py (l : list EntityId) :
  (forall i, i ∈ l -> is_item (heap e) i = true) ->
  match List.find (at_location (heap e) px py) l with
  | Some item =>
      PickupAction_loop entity px py l e = PickupAction_loop entity px py [item] e
      /\ item ∈ l /\ at_location (heap e) px py item = true
  | None =>
      PickupAction_loop entity px py l e
      = (e, Raised (Impossible "There is nothing here to pick up."))
  end.
Proof.
  induction l as [| i rest IH]; intros Hitems; [done |].
  assert (is_item (heap e) i = true) as Hi by (apply Hitems, elem_of_cons; by left).
  assert (forall j, j ∈ rest -> is_item (heap e) j = true) as Hrest
    by (intros j Hj; apply Hitems, elem_of_cons; by right).
  specialize (IH Hrest).
  cbn [List.find].
  unfold is_item in Hi. unfold at_location at 1.
  destruct (heap e !! i) as [it |] eqn:Hit; [| done].
  destruct ((x it =? px) && (y it =? py)) eqn:Hloc.
  - split; [| split; [apply elem_of_cons; by left |]].
    + cbn [PickupAction_loop].
      rewrite !(run_bind _ _ _ _ _ (run_deref _ _ _ Hit)).
      by rewrite (Z.eqb_sym px), (Z.eqb_sym py), Hloc.
    + unfold at_location. by rewrite Hit.
  - assert ((px =? x it) && (py =? y it) = false) as Hloc'
      by (by rewrite (Z.eqb_sym px), (Z.eqb_sym py)).
    assert (PickupAction_loop entity px py (i :: rest) e
            = PickupAction_loop entity px py rest e) as Hstep.
    { cbn [PickupAction_loop].
      rewrite (run_bind _ _ _ _ _ (run_deref _ _ _ Hit)). by rewrite Hloc'. }
    destruct (List.find (at_location (heap e) px py) rest) as [item |].
    + destruct IH as (Hrun & Hin & Hat).
      split; [by rewrite Hstep |]. split; [| done].
      apply elem_of_cons. by right.
    + by rewrite Hstep.
Qed.

Lemma PickupAction_unfold e entity ent f inv eq :
  heap e !! entity = Some ent -> kind ent = IsActor f inv eq ->
  perform (PickupAction entity) e
  = PickupAction_loop entity (x ent) (y ent) (map_items e) e.
Proof.
  intros Hi Hk. cbn [perform]. unfold PickupAction_perform.
  rewrite (run_bind _ _ _ _ _ (run_deref _ _ _ Hi)).
  by rewrite (run_bind _ _ _ _ _ (run_get_inventory _ _ _ _ _ _ Hi Hk)).
Qed.

Lemma first_item_at_scan e entity px py :
  match first_item_at e px py with
  | Some item =>
      PickupAction_loop entity px py (map_items e) e
      = PickupAction_loop entity px py [item] e
      /\ item ∈ entities (game_map e) /\ is_item (heap e) item = true
      /\ at_location (heap e) px py item = true
  | None =>
      PickupAction_loop entity px py (map_items e) e
      = (e, Raised (Impossible "There is nothing here to pick up."))
  end.
Proof.
  assert (forall i, i ∈ map_items e -> is_item (heap e) i = true) as Hitems.
  { intros i Hi. by apply map_items_spec in Hi as [_ Hi]. }
  pose proof (PickupAction_loop_scan e entity px py (map_items e) Hitems) as Hscan.
  unfold first_item_at.
  destruct (List.find (at_location (heap e) px py) (map_items e)) as [item |]; [| done].
  destruct Hscan as (Hrun & Hin & Hat).
  by apply map_items_spec in Hin as [Hin Hitem].
Qed.

(** C5. For an actor with an item on its tile and an inventory shorter
    than its capacity, PickupAction takes the first such item in the
    iteration order of the map, removes it from the entity collection of
    the map and appends it once to the end of the actor's inventory: the
    inventory is one longer and the map no longer holds the item. *)
Theorem PickupAction_transfers e entity ent f inv eq item :
  heap e !! entity = Some ent ->
  kind ent = IsActor f inv eq ->
  first_item_at e (x ent) (y ent) = Some item ->
  Z.of_nat (length (items inv)) < capacity inv ->
  NoDup (entities (game_map e)) ->
  exists e' inv',
    perform (PickupAction entity) e = (e', Returned tt)
    /\ (list_remove item (entities (game_map e)) = Some (entities (game_map e')))
    /\ (item ∉ entities (game_map e'))
    /\ inventory_of e' entity = Some inv'
    /\ items inv' = items inv ++ [item]
    /\ length (items inv') = S (length (items inv))
    /\ item ∈ items inv'.
Proof.
  intros Hi Hk Hfirst Hroom Hnd.
  rewrite (PickupAction_unfold _ _ _ _ _ _ Hi Hk).
  pose proof (first_item_at_scan e entity (x ent) (y ent)) as Hscan.
  rewrite Hfirst in Hscan. destruct Hscan as (-> & Hin & Hitem & Hat).
  unfold is_item in Hitem. unfold at_location in Hat.
  destruct (heap e !! item) as [it |] eqn:Hit; [| done].
  destruct (kind it) as [| c q] eqn:Hitk; [done |].
  assert (entity <> item) as Hne by (intros ->; congruence).
  destruct (list_remove_elem _ _ Hin) as [ents' Hrem].
  cbn [PickupAction_loop].
  rewrite (run_bind _ _ _ _ _ (run_deref _ _ _ Hit)).
  rewrite (Z.eqb_sym (x ent)), (Z.eqb_sym (y ent)), Hat.
  rewrite (run_bind _ _ _ _ _ (run_get_inventory _ _ _ _ _ _ Hi Hk)).
  assert ((Z.of_nat (length (items inv)) >=? capacity inv) = false) as ->.
  { rewrite Z.geb_leb. apply Z.leb_gt. lia. }
  unfold bind at 1, gets at 1. rewrite Hrem.
  unfold bind at 1, modify at 1.
  set (e1 := set_entities ents' e).
  assert (heap e1 !! item = Some it) as Hit1 by done.
  rewrite (run_bind _ _ _ _ _ (run_deref _ _ _ Hit1)).
  unfold bind at 1, store at 1, modify at 1.
  set (e2 := set_heap _ e1).
  assert (heap e2 !! entity = Some ent) as Hi2.
  { subst e2 e1. cbn. by rewrite lookup_insert_ne. }
  rewrite (run_bind _ _ _ _ _ (run_get_inventory _ _ _ _ _ _ Hi2 Hk)).
  rewrite (run_bind _ _ _ _ _ (run_set_inventory _ _ _ _ _ _ _ Hi2 Hk)).
  unfold add_message, modify.
  eexists. exists (mk_Inventory (capacity inv) (items inv ++ [item])).
  split; [done |]. cbn.
  split; [done |].
  split; [by eapply list_remove_NoDup |].
  split.
  { unfold inventory_of. cbn. by rewrite lookup_insert_eq. }
  split; [done |].
  split; [rewrite length_app; cbn; lia |].
  apply elem_of_app. right. by apply list_elem_of_singleton.
Qed.

(** C10. PickupAction looks at the capacity only once an item on the
    actor's tile is found: an actor with a full inventory gets the
    rejection for nothing to pick up on a tile without items, and the
    rejection for the full inventory on a tile with one; either way the
    engine, hence world and inventory, stays as it was. *)
Theorem PickupAction_full_inventory e entity ent f inv eq :
  heap e !! entity = Some ent ->
  kind ent = IsActor f inv eq ->
  Z.of_nat (length (items inv)) = capacity inv ->
  (first_item_at e (x ent) (y ent) = None ->
   perform (PickupAction entity) e
   = (e, Raised (Impossible "There is nothing here to pick up.")))
  /\ (forall item,
         first_item_at e (x ent) (y ent) = Some item ->
         perform (PickupAction entity) e
         = (e, Raised (Impossible "Your inventory is full."))).
Proof.
  intros Hi Hk Hfull.
  rewrite (PickupAction_unfold _ _ _ _ _ _ Hi Hk).
  pose proof (first_item_at_scan e entity (x ent) (y ent)) as Hscan.
  split.
  - intros Hnone. by rewrite Hnone in Hscan.
  - intros item Hfirst. rewrite Hfirst in Hscan.
    destruct Hscan as (-> & Hin & Hitem & Hat).
    unfold at_location in Hat.
    destruct (heap e !! item) as [it |] eqn:Hit; [| done].
    cbn [PickupAction_loop].
    rewrite (run_bind _ _ _ _ _ (run_deref _ _ _ Hit)).
    rewrite (Z.eqb_sym (x ent)), (Z.eqb_sym (y ent)), Hat.
    rewrite (run_bind _ _ _ _ _ (run_get_inventory _ _ _ _ _ _ Hi Hk)).
    assert ((Z.of_nat (length (items inv)) >=? capacity inv) = true) as ->; [| done].
    rewrite Z.geb_leb. apply Z.leb_le. lia.
Qed.

(** *** C6, C7: DropAction *)

Lemma holds_true (o : option EntityId) (i : EntityId) :
  holds o i = true <-> o = Some i.
Proof.
  unfold holds. destruct o as [j |]; [| done].
  rewrite Nat.eqb_eq. split; congruence.
Qed.

Lemma holds_false (o : option EntityId) (i : EntityId) :
  holds o i = false <-> o <> Some i.
Proof.
  rewrite <- holds_true. by destruct (holds o i).
Qed.

(** C7. A DropAction on an item that is equipped and whose category is
    armor raises nothing, leaves the store (hence inventory and equipment
    of the actor, the item still equipped and carried) and the map with its
    entity collection as they were, and adds exactly one narration event,
    the warning, to the log. *)
Theorem DropAction_worn_armor e entity ent f inv eq item it c q target_xy :
  heap e !! entity = Some ent ->
  kind ent = IsActor f inv eq ->
  heap e !! item = Some it ->
  kind it = IsItem c (Some q) ->
  equipment_type q = ARMOR ->
  item_is_equipped eq item = true ->
  exists e',
    perform (DropAction entity item target_xy) e = (e', Returned tt)
    /\ heap e' = heap e
    /\ game_map e' = game_map e
    /\ game_world e' = game_world e
    /\ inventory_of e' entity = Some inv
    /\ equipment_of e' entity = Some eq
    /\ message_log e'
       = message_log e ++ [("You cannot drop something you are wearing.", Some invalid)].
Proof.
  intros Hi Hk Hit Hitk Harmor Heq.
  cbn [perform]. unfold DropAction_perform.
  rewrite (run_bind _ _ _ _ _ (run_get_equipment _ _ _ _ _ _ Hi Hk)), Heq.
  rewrite (run_bind _ _ _ _ _ (run_get_equipment_type _ _ _ _ _ Hit Hitk)), Harmor.
  cbn [EquipmentType_eqb]. unfold add_message, modify.
  eexists. split; [done |]. cbn.
  repeat split.
  - unfold inventory_of. cbn. by rewrite Hi, Hk.
  - unfold equipment_of. cbn. by rewrite Hi, Hk.
Qed.

Lemma run_drop e entity ent f inv eq item it rest :
  heap e !! entity = Some ent ->
  kind ent = IsActor f inv eq ->
  heap e !! item = Some it ->
  entity <> item ->
  list_remove item (items inv) = Some rest ->
  drop entity item e
  = (set_entities (entities (game_map e) ++ [item])
       (set_heap
          (<[item := mk_Entity (x ent) (y ent) (name it) (blocks_movement it)
                       InGameMap (kind it)]>
             (<[entity := set_kind (IsActor f (mk_Inventory (capacity inv) rest) eq) ent]>
                (heap e))) e),
     Returned tt).
Proof.
  intros Hi Hk Hit Hne Hrem. unfold drop.
  rewrite (run_bind _ _ _ _ _ (run_get_inventory _ _ _ _ _ _ Hi Hk)), Hrem.
  rewrite (run_bind _ _ _ _ _ (run_set_inventory _ _ _ _ _ _ _ Hi Hk)).
  set (e1 := set_heap _ e).
  assert (heap e1 !! entity
          = Some (set_kind (IsActor f (mk_Inventory (capacity inv) rest) eq) ent)) as Hi1.
  { subst e1. cbn. by rewrite lookup_insert_eq. }
  assert (heap e1 !! item = Some it) as Hit1.
  { subst e1. cbn. by rewrite lookup_insert_ne. }
  rewrite (run_bind _ _ _ _ _ (run_deref _ _ _ Hi1)).
  rewrite (run_bind _ _ _ _ _ (run_deref _ _ _ Hit1)).
  unfold bind, store, modify. done.
Qed.

(** C6. A DropAction on an item that is equipped and whose category is not
    armor succeeds within the one resolution with the item unequipped, gone
    from the inventory and from every slot of the equipment of the actor,
    and in the entity collection of the map at the position of the actor. *)
Theorem DropAction_equipped_not_armor e entity ent f inv eq item it c q target_xy :
  heap e !! entity = Some ent ->
  kind ent = IsActor f inv eq ->
  heap e !! item = Some it ->
  kind it = IsItem c (Some q) ->
  equipment_type q <> ARMOR ->
  item_is_equipped eq item = true ->
  slots_match e eq ->
  item ∈ items inv ->
  NoDup (items inv) ->
  exists e' inv' eq' it',
    perform (DropAction entity item target_xy) e = (e', Returned tt)
    /\ equipment_of e' entity = Some eq'
    /\ item_is_equipped eq' item = false
    /\ (forall s, slot_get eq' s <> Some item)
    /\ inventory_of e' entity = Some inv'
    /\ (item ∉ items inv')
    /\ (item ∈ entities (game_map e'))
    /\ heap e' !! item = Some it'
    /\ position_of e' item = position_of e' entity
    /\ position_of e' entity = Some (x ent, y ent).
Proof.
  intros Hi Hk Hit Hitk Hcat Heq Hslots Hin Hnd.
  assert (entity <> item) as Hne by (intros ->; congruence).
  assert (equipment_type q = WEAPON) as Hweapon by (by destruct (equipment_type q)).
  assert (category_of e item = Some WEAPON) as Hcategory.
  { unfold category_of. by rewrite Hit, Hitk, Hweapon. }
  assert (armor eq <> Some item) as Harmor.
  { intros Ha. pose proof (Hslots ARMOR item Ha) as Hc. congruence. }
  assert (weapon eq = Some item) as Hw.
  { unfold item_is_equipped in Heq. apply orb_true_iff in Heq as [Hh | Hh].
    - by apply holds_true.
    - by apply holds_true in Hh. }
  destruct (list_remove_elem _ _ Hin) as [rest Hrem].
  cbn [perform]. unfold DropAction_perform.
  rewrite (run_bind _ _ _ _ _ (run_get_equipment _ _ _ _ _ _ Hi Hk)), Heq.
  rewrite (run_bind _ _ _ _ _ (run_get_equipment_type _ _ _ _ _ Hit Hitk)), Hweapon.
  cbn [EquipmentType_eqb].
  assert (toggle_equip entity item e
          = (set_heap (<[entity := set_kind (IsActor f inv (mk_Equipment None (armor eq))) ent]>
                         (heap e)) e, Returned tt)) as Htoggle.
  { unfold toggle_equip.
    rewrite (run_bind _ _ _ _ _ (run_get_equipment_type _ _ _ _ _ Hit Hitk)), Hweapon.
    rewrite (run_bind _ _ _ _ _ (run_get_equipment _ _ _ _ _ _ Hi Hk)).
    cbn [slot_get slot_set]. rewrite (proj2 (holds_true _ _) Hw).
    by rewrite (run_set_equipment _ _ _ _ _ _ _ Hi Hk). }
  rewrite (run_bind _ _ _ _ _ Htoggle).
  set (e1 := set_heap _ e).
  set (ent1 := set_kind (IsActor f inv (mk_Equipment None (armor eq))) ent).
  assert (heap e1 !! entity = Some ent1) as Hi1.
  { subst e1. cbn. by rewrite lookup_insert_eq. }
  assert (heap e1 !! item = Some it) as Hit1.
  { subst e1. cbn. by rewrite lookup_insert_ne. }
  rewrite (run_drop e1 entity ent1 f inv (mk_Equipment None (armor eq)) item it rest
             Hi1 eq_refl Hit1 Hne Hrem).
  eexists. exists (mk_Inventory (capacity inv) rest), (mk_Equipment None (armor eq)).
  eexists. split; [done |].
  assert (forall h : gmap EntityId (Entity Consumable), forall v w,
             (<[item := v]> (<[entity := w]> h)) !! entity = Some w) as Hlook.
  { intros h v w. rewrite lookup_insert_ne by done. by rewrite lookup_insert_eq. }
  split; [unfold equipment_of; cbn; by rewrite Hlook |].
  split.
  { unfold item_is_equipped. cbn. by apply holds_false. }
  split.
  { intros [|]; cbn; [done | exact Harmor]. }
  split; [unfold inventory_of; cbn; by rewrite Hlook |].
  split; [cbn; by eapply list_remove_NoDup |].
  split; [cbn; apply elem_of_app; right; by apply list_elem_of_singleton |].
  split; [cbn; by rewrite lookup_insert_eq |].
  unfold position_of. cbn. rewrite Hlook. by rewrite lookup_insert_eq.
Qed.

(** *** C8: TakeStairsAction *)

Lemma run_stands_on e entity ent (loc : GameMap -> Z * Z) :
  heap e !! entity = Some ent ->
  stands_on entity loc e
  = (e, Returned ((x ent =? fst (loc (game_map e))) && (y ent =? snd (loc (game_map e))))).
Proof.
  intros Hi. unfold stands_on.
  by rewrite (run_bind _ _ _ _ _ (run_deref _ _ _ Hi)).
Qed.

Lemma on_location_true ent (l : Z * Z) :
  (x ent =? fst l) && (y ent =? snd l) = true <-> (x ent, y ent) = l.
Proof.
  destruct l as [lx ly]. cbn. rewrite andb_true_iff, !Z.eqb_eq.
  split; [intros [-> ->]; done | intros [= -> ->]; done].
Qed.

Lemma on_location_false ent (l : Z * Z) :
  (x ent =? fst l) && (y ent =? snd l) = false <-> (x ent, y ent) <> l.
Proof.
  rewrite <- on_location_true. by destruct ((x ent =? fst l) && (y ent =? snd l)).
Qed.

(** C8. A TakeStairsAction with downward = false by an actor on the
    up-stairs location: on floor 1 it fails with Impossible and the engine,
    floor number included, is as before, no ascent having been triggered;
    on a floor above 1 (the actor not being on the down-stairs location as
    well) it triggers the ascent once and then emits one narration event,
    so that the floor number is one less whenever an ascent lowers it by
    one. *)
Theorem TakeStairsAction_upward e entity ent :
  heap e !! entity = Some ent ->
  (x ent, y ent) = upstairs_location (game_map e) ->
  (current_floor_number (game_world e) = 1 ->
   perform (TakeStairsAction entity false) e
   = (e, Raised (Impossible
                   (if (x ent =? fst (downstairs_location (game_map e)))
                       && (y ent =? snd (downstairs_location (game_map e)))
                    then "You cannot go up this staircase."
                    else "You have not finished your mission. You may not leave."))))
  /\ (current_floor_number (game_world e) > 1 ->
      (x ent, y ent) <> downstairs_location (game_map e) ->
      perform (TakeStairsAction entity false) e
      = (log_append ("You ascend the staircase.", Some descend) (ascend_floor e), Returned tt)
      /\ ((forall w, current_floor_number (game_world (ascend_floor w))
                     = current_floor_number (game_world w) - 1) ->
          current_floor_number
            (game_world (log_append ("You ascend the staircase.", Some descend) (ascend_floor e)))
          = current_floor_number (game_world e) - 1)).
Proof.
  intros Hi Hup. apply on_location_true in Hup.
  cbn [perform]. unfold TakeStairsAction_perform.
  rewrite (run_bind _ _ _ _ _ (run_stands_on _ _ _ downstairs_location Hi)).
  split.
  - intros Hfloor.
    destruct ((x ent =? fst (downstairs_location (game_map e)))
              && (y ent =? snd (downstairs_location (game_map e)))); [done |].
    unfold bind at 1, ret at 1.
    rewrite (run_bind _ _ _ _ _ (run_stands_on _ _ _ upstairs_location Hi)), Hup.
    unfold bind, gets. by rewrite Hfloor.
  - intros Hfloor Hdown. apply on_location_false in Hdown. rewrite Hdown.
    unfold bind at 1, ret at 1.
    rewrite (run_bind _ _ _ _ _ (run_stands_on _ _ _ upstairs_location Hi)), Hup.
    unfold bind at 1, gets at 1.
    assert ((current_floor_number (game_world e) =? 1) = false) as ->
      by (apply Z.eqb_neq; lia).
    split; [done |].
    intros Hlaw. cbn. apply Hlaw.
Qed.

(** *** C2: an Impossible rejection comes before any mutation *)

Lemma readonly_ret {A : Type} (a : A) : readonly (ret a : M Consumable GameWorld A).
Proof. intros e e' o [= <- _]. done. Qed.

Lemma readonly_raise {A : Type} err : readonly (raise err : M Consumable GameWorld A).
Proof. intros e e' o [= <- _]. done. Qed.

Lemma readonly_gets {A : Type} (g : Engine Consumable GameWorld -> A) : readonly (gets g).
Proof. intros e e' o [= <- _]. done. Qed.

Lemma readonly_deref i : readonly (deref i : M Consumable GameWorld _).
Proof. intros e e' o. unfold deref. destruct (heap e !! i); intros [= <- _]; done. Qed.

Lemma readonly_bind {A B : Type} (m : M Consumable GameWorld A)
    (k : A -> M Consumable GameWorld B) :
  readonly m -> (forall a, readonly (k a)) -> readonly (bind m k).
Proof.
  intros Hm Hk e e' o. unfold bind.
  destruct (m e) as [e1 [a | err]] eqn:Hrun.
  - rewrite <- (Hm _ _ _ Hrun). apply Hk.
  - intros [= <- _]. by apply (Hm _ _ _ Hrun).
Qed.

Lemma never_ret {A : Type} (a : A) : never_Impossible (ret a : M Consumable GameWorld A).
Proof. intros e e' reason. discriminate. Qed.

Lemma never_raise {A : Type} err :
  match err with Impossible _ => False | _ => True end ->
  never_Impossible (raise err : M Consumable GameWorld A).
Proof. intros Herr e e' reason [= _ ->]. done. Qed.

Lemma never_gets {A : Type} (g : Engine Consumable GameWorld -> A) :
  never_Impossible (gets g).
Proof. intros e e' reason. discriminate. Qed.

Lemma never_modify (g : Engine Consumable GameWorld -> Engine Consumable GameWorld) :
  never_Impossible (modify g).
Proof. intros e e' reason. discriminate. Qed.

Lemma never_deref i : never_Impossible (deref i : M Consumable GameWorld _).
Proof. intros e e' reason. unfold deref. destruct (heap e !! i); discriminate. Qed.

Lemma never_bind {A B : Type} (m : M Consumable GameWorld A)
    (k : A -> M Consumable GameWorld B) :
  never_Impossible m -> (forall a, never_Impossible (k a)) -> never_Impossible (bind m k).
Proof.
  intros Hm Hk e e' reason. unfold bind.
  destruct (m e) as [e1 [a | err]] eqn:Hrun.
  - apply Hk.
  - intros [= -> ->]. by apply (Hm _ _ _ Hrun).
Qed.

Lemma validates_readonly {A : Type} (m : M Consumable GameWorld A) :
  readonly m -> validates_first m.
Proof. intros Hm e e' reason. apply Hm. Qed.

Lemma validates_never {A : Type} (m : M Consumable GameWorld A) :
  never_Impossible m -> validates_first m.
Proof. intros Hm e e' reason Hrun. by apply Hm in Hrun. Qed.

(** A read-only prefix followed by a continuation that validates first
    validates first. *)
Lemma validates_bind {A B : Type} (m : M Consumable GameWorld A)
    (k : A -> M Consumable GameWorld B) :
  readonly m -> (forall a, validates_first (k a)) -> validates_first (bind m k).
Proof.
  intros Hm Hk e e' reason. unfold bind.
  destruct (m e) as [e1 [a | err]] eqn:Hrun.
  - rewrite <- (Hm _ _ _ Hrun). apply Hk.
  - intros [= <- _]. by apply (Hm _ _ _ Hrun).
Qed.

Create HintDb resolution.

#[local] Hint Unfold get_fighter get_inventory get_equipment set_fighter
  set_inventory set_equipment get_consumable get_equippable get_equipment_type
  add_message store move toggle_equip drop dest_xy target_actor blocking_entity
  stands_on : resolution.

Ltac readonly_steps :=
  autounfold with resolution;
  repeat first
    [ apply readonly_bind; [| intros ?]
    | apply readonly_ret | apply readonly_raise | apply readonly_gets
    | apply readonly_deref
    | match goal with
      | |- readonly (match ?s with _ => _ end) => destruct s
      end ].

Ltac never_steps :=
  autounfold with resolution;
  repeat first
    [ apply never_bind; [| intros ?]
    | apply never_ret | apply never_gets | apply never_modify | apply never_deref
    | apply never_raise; exact I
    | match goal with
      | |- never_Impossible (match ?s with _ => _ end) => destruct s
      end ].

Ltac validate_steps :=
  autounfold with resolution;
  repeat first
    [ apply validates_bind; [solve [readonly_steps] | intros ?]
    | match goal with
      | |- validates_first (match ?s with _ => _ end) => destruct s
      end
    | solve [apply validates_readonly; readonly_steps]
    | solve [apply validates_never; never_steps] ].

Lemma PickupAction_loop_validates entity px py (l : list EntityId) :
  validates_first (PickupAction_loop entity px py l : M Consumable GameWorld unit).
Proof.
  induction l as [| item rest IH]; cbn [PickupAction_loop].
  - apply validates_readonly, readonly_raise.
  - apply validates_bind; [apply readonly_deref | intros it].
    destruct ((px =? x it) && (py =? y it)); [| exact IH].
    validate_steps.
Qed.

Lemma PickupAction_validates entity :
  validates_first (PickupAction_perform entity : M Consumable GameWorld unit).
Proof.
  unfold PickupAction_perform.
  apply validates_bind; [apply readonly_deref | intros ent].
  apply validates_bind; [readonly_steps | intros inv].
  apply validates_bind; [apply readonly_gets | intros its].
  apply PickupAction_loop_validates.
Qed.

Lemma DropAction_validates entity item :
  validates_first (DropAction_perform entity item : M Consumable GameWorld unit).
Proof. unfold DropAction_perform. apply validates_never. never_steps. Qed.

Lemma EquipAction_validates entity item :
  validates_first (EquipAction_perform entity item : M Consumable GameWorld unit).
Proof. unfold EquipAction_perform. apply validates_never. never_steps. Qed.

Lemma TakeStairsAction_validates entity downward :
  validates_first (TakeStairsAction_perform entity downward : M Consumable GameWorld unit).
Proof.
  unfold TakeStairsAction_perform. destruct downward; cbv beta iota.
  - apply validates_never. never_steps.
  - validate_steps.
Qed.

Lemma MeleeAction_validates entity dx dy :
  validates_first (MeleeAction_perform entity dx dy : M Consumable GameWorld unit).
Proof. unfold MeleeAction_perform. validate_steps. Qed.

Lemma MovementAction_validates entity dx dy :
  validates_first (MovementAction_perform entity dx dy : M Consumable GameWorld unit).
Proof. unfold MovementAction_perform. validate_steps. Qed.

Lemma BumpAction_validates entity dx dy :
  validates_first (BumpAction_perform entity dx dy : M Consumable GameWorld unit).
Proof.
  unfold BumpAction_perform.
  apply validates_bind; [readonly_steps | intros [t |]].
  - apply MeleeAction_validates.
  - apply MovementAction_validates.
Qed.

(** C2. For every action and every engine state, a resolution that fails
    with an Impossible rejection leaves the engine exactly as it was:
    store (every entity's position, inventory, equipment and fighter
    stats), map with its entity collection, floor state and log. The one
    part resolved outside actions.py, the activation of a consumable, is
    asked to reject before it mutates, as the actions themselves do. *)
Theorem Impossible_leaves_engine_unchanged (a : Action) e e' reason :
  (forall c entity item target_xy, validates_first (activate c entity item target_xy)) ->
  perform a e = (e', Raised (Impossible reason)) ->
  e' = e.
Proof.
  intros Hactivate. revert e e' reason.
  change (validates_first (perform a)).
  destruct a as [entity | entity item target_xy | entity item target_xy | entity item
                | entity | entity downward | entity dx dy | entity dx dy | entity dx dy];
    cbn [perform].
  - apply PickupAction_validates.
  - unfold ItemAction_perform.
    apply validates_bind; [readonly_steps | intros [c |]].
    + apply Hactivate.
    + apply validates_readonly, readonly_ret.
  - apply DropAction_validates.
  - apply EquipAction_validates.
  - apply validates_readonly, readonly_ret.
  - apply TakeStairsAction_validates.
  - apply MeleeAction_validates.
  - apply MovementAction_validates.
  - apply BumpAction_validates.
Qed.

(** *** TakeStairsAction: the remaining cells of the resolution *)

(** X1. A downward TakeStairsAction by an actor on the down-stairs
    location moves to the next floor when one exists and generates one
    otherwise, then logs exactly one descent message and succeeds; the
    second test, for the up-stairs of the floor arrived on, does nothing
    when going down. *)
Theorem TakeStairsAction_descends e entity ent ent' :
  heap e !! entity = Some ent ->
  (x ent, y ent) = downstairs_location (game_map e) ->
  heap (if next_floor_exists e then descend_floor e else generate_floor e) !! entity
  = Some ent' ->
  perform (TakeStairsAction entity true) e
  = (log_append ("You descend the staircase.", Some descend)
       (if next_floor_exists e then descend_floor e else generate_floor e),
     Returned tt).
Proof.
  intros Hi Hdown Hi'. apply on_location_true in Hdown.
  cbn [perform]. unfold TakeStairsAction_perform.
  rewrite (run_bind _ _ _ _ _ (run_stands_on _ _ _ downstairs_location Hi)), Hdown.
  unfold bind at 1. unfold bind at 1, gets at 1.
  destruct (next_floor_exists e).
  - unfold bind at 1, modify at 1, add_message at 1, modify at 1.
    rewrite (run_bind _ _ _ _ _ (run_stands_on (log_append _ _) _ _ upstairs_location Hi')).
    destruct ((x ent' =? _) && (y ent' =? _)); reflexivity.
  - unfold bind at 1, modify at 1, add_message at 1, modify at 1.
    rewrite (run_bind _ _ _ _ _ (run_stands_on (log_append _ _) _ _ upstairs_location Hi')).
    destruct ((x ent' =? _) && (y ent' =? _)); reflexivity.
Qed.

(** X2. An upward TakeStairsAction by an actor on the down-stairs location
    is refused with Impossible on every floor, whether or not the
    up-stairs are on the same tile, and nothing changes. *)
Theorem TakeStairsAction_up_the_downstairs e entity ent :
  heap e !! entity = Some ent ->
  (x ent, y ent) = downstairs_location (game_map e) ->
  perform (TakeStairsAction entity false) e
  = (e, Raised (Impossible "You cannot go up this staircase.")).
Proof.
  intros Hi Hdown. apply on_location_true in Hdown.
  cbn [perform]. unfold TakeStairsAction_perform.
  by rewrite (run_bind _ _ _ _ _ (run_stands_on _ _ _ downstairs_location Hi)), Hdown.
Qed.

(** X3. Away from the down-stairs, a TakeStairsAction that goes down, or
    that goes up from a tile that is not the up-stairs, succeeds without
    changing anything: no floor change, no narration, no rejection. *)
Theorem TakeStairsAction_falls_through e entity ent downward :
  heap e !! entity = Some ent ->
  (x ent, y ent) <> downstairs_location (game_map e) ->
  downward = true \/ (x ent, y ent) <> upstairs_location (game_map e) ->
  perform (TakeStairsAction entity downward) e = (e, Returned tt).
Proof.
  intros Hi Hdown Hcase. apply on_location_false in Hdown.
  cbn [perform]. unfold TakeStairsAction_perform.
  rewrite (run_bind _ _ _ _ _ (run_stands_on _ _ _ downstairs_location Hi)), Hdown.
  unfold bind at 1, ret at 1.
  rewrite (run_bind _ _ _ _ _ (run_stands_on _ _ _ upstairs_location Hi)).
  destruct Hcase as [-> | Hup].
  - destruct ((x ent =? (upstairs_location _).1) && _); reflexivity.
  - apply on_location_false in Hup. by rewrite Hup.
Qed.

(** *** ItemAction and the queries at the destination *)

Lemma find_is_Some {A : Type} (p : A -> bool) (l : list A) (a : A) :
  a ∈ l -> p a = true -> is_Some (List.find p l).
Proof.
  intros Hin Hp. destruct (List.find p l) as [b |] eqn:Hfind; [by eexists |].
  apply list_elem_of_In in Hin.
  pose proof (List.find_none _ _ Hfind _ Hin) as Hnone. congruence.
Qed.

(** X4. An ItemAction on an item that has no consumable capability
    succeeds and leaves the engine untouched. *)
Theorem ItemAction_without_consumable e entity item it q target_xy :
  heap e !! item = Some it ->
  kind it = IsItem None q ->
  perform (ItemAction entity item target_xy) e = (e, Returned tt).
Proof.
  intros Hit Hk. cbn [perform]. unfold ItemAction_perform.
  assert (get_consumable item e = (e, Returned None)) as Hc.
  { unfold get_consumable. rewrite (run_bind _ _ _ _ _ (run_deref _ _ _ Hit)).
    by rewrite Hk. }
  by rewrite (run_bind _ _ _ _ _ Hc).
Qed.

(** X5. An ItemAction built without a target aims at the position of the
    acting entity; for an actor that is in the entity collection of the
    map, its [target_actor] is then never empty: it is an actor standing
    on that very tile. *)
Theorem ItemAction_default_target e entity ent f inv eq item :
  heap e !! entity = Some ent ->
  kind ent = IsActor f inv eq ->
  entity ∈ entities (game_map e) ->
  ItemAction_init e entity item None = Some (entity, item, (x ent, y ent))
  /\ exists target tgt,
       ItemAction_target_actor (x ent, y ent) e = (e, Returned (Some target))
       /\ heap e !! target = Some tgt
       /\ is_actor (heap e) target = true
       /\ (x tgt, y tgt) = (x ent, y ent).
Proof.
  intros Hi Hk Hin. split.
  - unfold ItemAction_init. by rewrite Hi.
  - assert (is_Some (get_actor_at_location e (x ent) (y ent))) as [target Ht].
    { apply (find_is_Some _ _ entity Hin).
      unfold is_actor, at_location. rewrite Hi, Hk, !Z.eqb_refl. done. }
    destruct (get_actor_at_location_Some _ _ _ _ Ht)
      as (tgt & tf & tinv & teq & Hti & Htk & Hx & Hy).
    exists target, tgt. unfold ItemAction_target_actor, gets. cbn [fst snd].
    rewrite Ht. repeat split; [done | | congruence].
    unfold is_actor. by rewrite Hti, Htk.
Qed.

(** X6. An actor that blocks movement and stands on the destination makes
    that tile refuse a MovementAction: where the melee query of a bump
    finds a blocking actor, a move would have been rejected. *)
Theorem MovementAction_onto_blocking_actor e entity ent dx dy target :
  heap e !! entity = Some ent ->
  tiles_shaped (game_map e) ->
  get_actor_at_location e (x ent + dx) (y ent + dy) = Some target ->
  blocks (heap e) target = true ->
  is_Some (get_blocking_entity_at_location e (x ent + dx) (y ent + dy))
  /\ perform (MovementAction entity dx dy) e
     = (e, Raised (Impossible "That way is blocked.")).
Proof.
  intros Hi Hshape Ht Hblocks.
  assert (is_Some (get_blocking_entity_at_location e (x ent + dx) (y ent + dy))) as Hb.
  { apply find_some in Ht as [Hin Hp]. apply andb_true_iff in Hp as [_ Hat].
    apply (find_is_Some _ _ target); [by apply list_elem_of_In |].
    by rewrite Hblocks, Hat. }
  split; [done |].
  rewrite (MovementAction_unfold _ _ _ dx dy Hi).
  destruct (in_bounds (game_map e) (x ent + dx) (y ent + dy)) eqn:Hbounds; cbn [negb]; [| done].
  destruct (tile_at_in_bounds _ _ _ Hshape Hbounds) as (column & t & _ & _ & ->).
  destruct (walkable t); cbn [negb]; [| done].
  by destruct Hb as [b ->].
Qed.

(** *** MeleeAction: narration and frame *)

Lemma run_bind_raised {A B : Type} (m : M Consumable GameWorld A)
    (k : A -> M Consumable GameWorld B) e e1 err :
  m e = (e1, Raised err) -> bind m k e = (e1, Raised err).
Proof. intros Hm. unfold bind. by rewrite Hm. Qed.

Lemma run_get_fighter_of_item e entity ent c q :
  heap e !! entity = Some ent -> kind ent = IsItem c q ->
  get_fighter entity e = (e, Raised AttributeError).
Proof.
  intros Hi Hk. unfold get_fighter.
  rewrite (run_bind _ _ _ _ _ (run_deref _ _ _ Hi)). by rewrite Hk.
Qed.

Lemma run_MeleeAction e entity ent atk inv eq dx dy target tgt def tinv teq :
  heap e !! entity = Some ent ->
  kind ent = IsActor atk inv eq ->
  get_actor_at_location e (x ent + dx) (y ent + dy) = Some target ->
  heap e !! target = Some tgt ->
  kind tgt = IsActor def tinv teq ->
  perform (MeleeAction entity dx dy) e
  = if power atk - defense def >? 0 then
      (set_heap
         (<[target := set_kind (IsActor (mk_Fighter (hp def - (power atk - defense def))
                                            (power def) (defense def)) tinv teq) tgt]>
            (heap e))
         (log_append
            ((capitalize (name ent) +:+ " attacks " +:+ name tgt) +:+ " for "
               +:+ str_of_int (power atk - defense def) +:+ " hit points.",
             Some (if (entity =? player e)%nat then player_atk else enemy_atk)) e),
       Returned tt)
    else
      (log_append
         ((capitalize (name ent) +:+ " attacks " +:+ name tgt) +:+ " but does no damage.",
          Some (if (entity =? player e)%nat then player_atk else enemy_atk)) e,
       Returned tt).
Proof.
  intros Hi Hk Ht Hti Htk. cbn [perform]. unfold MeleeAction_perform.
  rewrite (run_bind _ _ _ _ _ (run_target_actor _ _ _ dx dy Hi)), Ht.
  rewrite (run_bind _ _ _ _ _ (run_get_fighter _ _ _ _ _ _ Hi Hk)).
  rewrite (run_bind _ _ _ _ _ (run_get_fighter _ _ _ _ _ _ Hti Htk)).
  rewrite (run_bind _ _ _ _ _ (run_deref _ _ _ Hi)).
  rewrite (run_bind _ _ _ _ _ (run_deref _ _ _ Hti)).
  unfold bind at 1, gets at 1.
  destruct (power atk - defense def >? 0); [| done].
  unfold bind at 1, add_message at 1, modify at 1.
  rewrite (run_bind _ _ _ _ _ (run_get_fighter (log_append _ _) _ _ _ _ _ Hti Htk)).
  by rewrite (run_set_fighter (log_append _ _) _ _ _ _ _ _ Hti Htk).
Qed.


(** X8. Whatever its outcome, a MeleeAction moves nobody, leaves map,
    floor state and every entity other than the target untouched, never
    raises anybody's hit points and never changes power or defense. *)
Theorem MeleeAction_frame e entity ent dx dy e' o :
  heap e !! entity = Some ent ->
  perform (MeleeAction entity dx dy) e = (e', o) ->
  game_map e' = game_map e
  /\ game_world e' = game_world e
  /\ (forall j, position_of e' j = position_of e j)
  /\ (forall j, inventory_of e' j = inventory_of e j)
  /\ (forall j, get_actor_at_location e (x ent + dx) (y ent + dy) <> Some j ->
                heap e' !! j = heap e !! j)
  /\ (forall j fj, fighter_of e j = Some fj ->
        exists fj', fighter_of e' j = Some fj'
                    /\ hp fj' <= hp fj /\ power fj' = power fj /\ defense fj' = defense fj).
Proof.
  intros Hi Hrun.
  assert (forall e0 : Engine Consumable GameWorld, e' = e0 -> heap e0 = heap e ->
             game_map e0 = game_map e -> game_world e0 = game_world e ->
             game_map e' = game_map e
             /\ game_world e' = game_world e
             /\ (forall j, position_of e' j = position_of e j)
             /\ (forall j, inventory_of e' j = inventory_of e j)
             /\ (forall j, get_actor_at_location e (x ent + dx) (y ent + dy) <> Some j ->
                           heap e' !! j = heap e !! j)
             /\ (forall j fj, fighter_of e j = Some fj ->
                   exists fj', fighter_of e' j = Some fj'
                               /\ hp fj' <= hp fj /\ power fj' = power fj
                               /\ defense fj' = defense fj)) as Hsame.
  { intros e0 -> Hh Hm Hw.
    unfold position_of, inventory_of, fighter_of. rewrite Hh.
    repeat split; try done. intros j fj Hfj. exists fj. repeat split; [done | lia]. }
  destruct (get_actor_at_location e (x ent + dx) (y ent + dy)) as [target |] eqn:Ht.
  - destruct (get_actor_at_location_Some _ _ _ _ Ht)
      as (tgt & def & tinv & teq & Hti & Htk & _ & _).
    destruct (kind ent) as [atk inv eq | c q] eqn:Hk.
    + rewrite (run_MeleeAction _ _ _ _ _ _ dx dy _ _ _ _ _ Hi Hk Ht Hti Htk) in Hrun.
      destruct (power atk - defense def >? 0) eqn:Hd.
      * injection Hrun as <- _. apply Z.gtb_lt in Hd.
        unfold position_of, inventory_of, fighter_of. cbn.
        repeat split.
        -- intros j. destruct (decide (j = target)) as [-> | Hne].
           ++ by rewrite lookup_insert_eq, Hti.
           ++ by rewrite lookup_insert_ne.
        -- intros j. destruct (decide (j = target)) as [-> | Hne].
           ++ rewrite lookup_insert_eq, Hti. cbn. by rewrite Htk.
           ++ by rewrite lookup_insert_ne.
        -- intros j Hj. rewrite lookup_insert_ne; [done | congruence].
        -- intros j fj. destruct (decide (j = target)) as [-> | Hne].
           ++ rewrite lookup_insert_eq, Hti, Htk. intros [= <-].
              eexists. split; [done |]. cbn. repeat split; lia.
           ++ rewrite lookup_insert_ne by done. intros Hfj.
              exists fj. repeat split; [done | lia].
      * injection Hrun as <- _. by apply (Hsame _ eq_refl).
    + cbn [perform] in Hrun. unfold MeleeAction_perform in Hrun.
      rewrite (run_bind _ _ _ _ _ (run_target_actor _ _ _ dx dy Hi)), Ht in Hrun.
      rewrite (run_bind_raised _ _ _ _ _ (run_get_fighter_of_item _ _ _ _ _ Hi Hk)) in Hrun.
      injection Hrun as <- _. by apply (Hsame _ eq_refl).
  - cbn [perform] in Hrun. unfold MeleeAction_perform in Hrun.
    rewrite (run_bind _ _ _ _ _ (run_target_actor _ _ _ dx dy Hi)), Ht in Hrun.
    injection Hrun as <- _. by apply (Hsame _ eq_refl).
Qed.

Lemma MeleeAction_keeps_positions e entity ent dx dy e' o :
  heap e !! entity = Some ent ->
  perform (MeleeAction entity dx dy) e = (e', o) ->
  forall j, position_of e' j = position_of e j.
Proof.
  intros Hi Hrun j. cbn [perform] in Hrun. unfold MeleeAction_perform in Hrun.
  rewrite (run_bind _ _ _ _ _ (run_target_actor _ _ _ dx dy Hi)) in Hrun.
  destruct (get_actor_at_location e (x ent + dx) (y ent + dy)) as [target |] eqn:Ht;
    [| by injection Hrun as <- _].
  destruct (get_actor_at_location_Some _ _ _ _ Ht)
    as (tgt & def & tinv & teq & Hti & Htk & _ & _).
  destruct (kind ent) as [atk inv eq | c q] eqn:Hk.
  - pose proof (run_MeleeAction _ _ _ _ _ _ dx dy _ _ _ _ _ Hi Hk Ht Hti Htk) as Hfull.
    cbn [perform] in Hfull. unfold MeleeAction_perform in Hfull.
    rewrite (run_bind _ _ _ _ _ (run_target_actor _ _ _ dx dy Hi)), Ht in Hfull.
    rewrite Hfull in Hrun.
    destruct (power atk - defense def >? 0); injection Hrun as <- _; [| done].
    unfold position_of. cbn. destruct (decide (j = target)) as [-> | Hne].
    + by rewrite lookup_insert_eq, Hti.
    + by rewrite lookup_insert_ne.
  - rewrite (run_bind_raised _ _ _ _ _ (run_get_fighter_of_item _ _ _ _ _ Hi Hk)) in Hrun.
    by injection Hrun as <- _.
Qed.

(** X9. A BumpAction with the zero offset by an actor that is in the
    entity collection never moves and is never refused: the actor's own
    tile always holds an actor (itself if no other comes first), so the
    bump resolves as the melee attack and succeeds with every position
    unchanged. *)
Theorem BumpAction_zero_offset e entity ent f inv eq :
  heap e !! entity = Some ent ->
  kind ent = IsActor f inv eq ->
  entity ∈ entities (game_map e) ->
  perform (BumpAction entity 0 0) e = perform (MeleeAction entity 0 0) e
  /\ exists e',
       perform (BumpAction entity 0 0) e = (e', Returned tt)
       /\ forall j, position_of e' j = position_of e j.
Proof.
  intros Hi Hk Hin.
  assert (is_Some (get_actor_at_location e (x ent + 0) (y ent + 0))) as [target Ht].
  { apply (find_is_Some _ _ entity Hin).
    unfold is_actor, at_location. rewrite Hi, Hk, !Z.add_0_r, !Z.eqb_refl. done. }
  assert (perform (BumpAction entity 0 0) e = perform (MeleeAction entity 0 0) e) as Hbump.
  { cbn [perform]. unfold BumpAction_perform.
    by rewrite (run_bind _ _ _ _ _ (run_target_actor _ _ _ 0 0 Hi)), Ht. }
  split; [done |]. rewrite Hbump.
  destruct (get_actor_at_location_Some _ _ _ _ Ht)
    as (tgt & def & tinv & teq & Hti & Htk & _ & _).
  pose proof (run_MeleeAction _ _ _ _ _ _ 0 0 _ _ _ _ _ Hi Hk Ht Hti Htk) as Hrun.
  destruct (perform (MeleeAction entity 0 0) e) as [e' o] eqn:Hperf.
  exists e'. split.
  - destruct (power f - defense def >? 0); by injection Hrun as _ ->.
  - exact (MeleeAction_keeps_positions _ _ _ 0 0 _ _ Hi Hperf).
Qed.

(** *** MovementAction: frame, round trip and what it keeps *)

Lemma MovementAction_outcome e entity ent dx dy e' o :
  heap e !! entity = Some ent ->
  perform (MovementAction entity dx dy) e = (e', o) ->
  (e' = e /\ o <> Returned tt)
  \/ (o = Returned tt
      /\ e' = set_heap (<[entity := mk_Entity (x ent + dx) (y ent + dy) (name ent)
                                      (blocks_movement ent) (parent ent) (kind ent)]>
                          (heap e)) e
      /\ in_bounds (game_map e) (x ent + dx) (y ent + dy) = true
      /\ (exists t, tile_at (game_map e) (x ent + dx) (y ent + dy) = Some t
                    /\ walkable t = true)
      /\ get_blocking_entity_at_location e (x ent + dx) (y ent + dy) = None).
Proof.
  intros Hi. rewrite (MovementAction_unfold _ _ _ dx dy Hi).
  destruct (in_bounds _ _ _); cbn [negb]; [| intros [= <- <-]; by left].
  destruct (tile_at _ _ _) as [t |]; [| intros [= <- <-]; by left].
  destruct (walkable t) eqn:Hw; cbn [negb]; [| intros [= <- <-]; by left].
  destruct (get_blocking_entity_at_location _ _ _); [intros [= <- <-]; by left |].
  rewrite (run_move _ _ _ dx dy Hi). intros [= <- <-]. right.
  repeat split; eauto.
Qed.

Lemma MovementAction_keeps_fighters e entity ent dx dy e' o :
  heap e !! entity = Some ent ->
  perform (MovementAction entity dx dy) e = (e', o) ->
  (forall j, fighter_of e' j = fighter_of e j) /\ message_log e' = message_log e.
Proof.
  intros Hi Hrun.
  destruct (MovementAction_outcome _ _ _ _ _ _ _ Hi Hrun)
    as [[-> _] | (_ & -> & _)]; [done |].
  split; [| done]. intros j. unfold fighter_of. cbn.
  destruct (decide (j = entity)) as [-> | Hne].
  - by rewrite lookup_insert_eq, Hi.
  - by rewrite lookup_insert_ne.
Qed.

(** X10. Whatever its outcome, a MovementAction is silent and touches
    nothing but the coordinates of the acting entity: log, map, floor
    state, every other entity, and the name, blocking flag, owner and
    components of the mover stay as they were. *)
Theorem MovementAction_frame e entity ent dx dy e' o :
  heap e !! entity = Some ent ->
  perform (MovementAction entity dx dy) e = (e', o) ->
  message_log e' = message_log e
  /\ game_map e' = game_map e
  /\ game_world e' = game_world e
  /\ (forall j, j <> entity -> heap e' !! j = heap e !! j)
  /\ exists ent',
       heap e' !! entity = Some ent'
       /\ name ent' = name ent /\ blocks_movement ent' = blocks_movement ent
       /\ parent ent' = parent ent /\ kind ent' = kind ent.
Proof.
  intros Hi Hrun.
  destruct (MovementAction_outcome _ _ _ _ _ _ _ Hi Hrun)
    as [[-> _] | (_ & -> & _)].
  - repeat split; try done. by exists ent.
  - cbn. repeat split; try done.
    + intros j Hj. by rewrite lookup_insert_ne.
    + eexists. rewrite lookup_insert_eq. done.
Qed.

(** X11. A successful move followed by a successful move by the opposite
    offset restores the engine exactly. *)
Theorem MovementAction_round_trip e entity ent dx dy e1 e2 :
  heap e !! entity = Some ent ->
  perform (MovementAction entity dx dy) e = (e1, Returned tt) ->
  perform (MovementAction entity (- dx) (- dy)) e1 = (e2, Returned tt) ->
  e2 = e.
Proof.
  intros Hi Hgo Hback.
  destruct (MovementAction_outcome _ _ _ _ _ _ _ Hi Hgo) as [[_ Hne] | (_ & -> & _)];
    [done |].
  set (moved := mk_Entity (x ent + dx) (y ent + dy) (name ent)
                  (blocks_movement ent) (parent ent) (kind ent)) in *.
  assert (heap (set_heap (<[entity := moved]> (heap e)) e) !! entity = Some moved) as Hi1.
  { cbn. by rewrite lookup_insert_eq. }
  destruct (MovementAction_outcome _ _ _ _ _ _ _ Hi1 Hback) as [[_ Hne] | (_ & -> & _)];
    [done |].
  destruct e as [h gm gw ml pl]. destruct ent as [ex ey en eb ep ek].
  unfold set_heap. cbn in *. f_equal.
  rewrite insert_insert_eq.
  replace (ex + dx + - dx) with ex by lia.
  replace (ey + dy + - dy) with ey by lia.
  by apply insert_id.
Qed.

(** X12. A movement-blocking entity of the map cannot move by the zero
    offset: wherever it stands, the move is refused, in the last resort
    because the entity finds itself in the way. *)
Theorem MovementAction_zero_offset_blocked e entity ent :
  heap e !! entity = Some ent ->
  tiles_shaped (game_map e) ->
  entity ∈ entities (game_map e) ->
  blocks_movement ent = true ->
  perform (MovementAction entity 0 0) e
  = (e, Raised (Impossible "That way is blocked.")).
Proof.
  intros Hi Hshape Hin Hblocks.
  rewrite (MovementAction_unfold _ _ _ 0 0 Hi).
  destruct (in_bounds (game_map e) (x ent + 0) (y ent + 0)) eqn:Hbounds; cbn [negb]; [| done].
  destruct (tile_at_in_bounds _ _ _ Hshape Hbounds) as (column & t & _ & _ & ->).
  destruct (walkable t); cbn [negb]; [| done].
  assert (is_Some (get_blocking_entity_at_location e (x ent + 0) (y ent + 0))) as [b ->];
    [| done].
  apply (find_is_Some _ _ entity Hin).
  unfold blocks, at_location. by rewrite Hi, Hblocks, !Z.add_0_r, !Z.eqb_refl.
Qed.

Lemma get_blocking_entity_None e px py j b :
  get_blocking_entity_at_location e px py = None ->
  j ∈ entities (game_map e) ->
  heap e !! j = Some b ->
  blocks_movement b = true ->
  (x b, y b) <> (px, py).
Proof.
  intros Hnone Hin Hj Hb [= Hx Hy].
  apply list_elem_of_In in Hin.
  pose proof (List.find_none _ _ Hnone _ Hin) as Hp.
  unfold blocks, at_location in Hp. rewrite Hj, Hb, Hx, Hy, !Z.eqb_refl in Hp. done.
Qed.

(** X13. MovementAction keeps movement-blocking entities apart: if no two
    blocking entities of the map share a tile before the resolution, none
    do after it, whatever its outcome. *)
Theorem MovementAction_keeps_no_stacking e entity ent dx dy e' o :
  heap e !! entity = Some ent ->
  no_stacking e ->
  perform (MovementAction entity dx dy) e = (e', o) ->
  no_stacking e'.
Proof.
  intros Hi Hinv Hrun.
  destruct (MovementAction_outcome _ _ _ _ _ _ _ Hi Hrun)
    as [[-> _] | (_ & -> & _ & _ & Hfree)]; [done |].
  intros i j a b Hin Hjn Ha Hb Hba Hbb Hpos. cbn in Hin, Hjn, Ha, Hb.
  destruct (decide (i = entity)) as [-> | Hie], (decide (j = entity)) as [-> | Hje];
    [done | | |].
  - rewrite lookup_insert_eq in Ha. rewrite lookup_insert_ne in Hb by done.
    injection Ha as <-. cbn in Hpos.
    by destruct (get_blocking_entity_None _ _ _ _ _ Hfree Hjn Hb Hbb).
  - rewrite lookup_insert_eq in Hb. rewrite lookup_insert_ne in Ha by done.
    injection Hb as <-. cbn in Hpos.
    by destruct (get_blocking_entity_None _ _ _ _ _ Hfree Hin Ha Hba).
  - rewrite lookup_insert_ne in Ha by done. rewrite lookup_insert_ne in Hb by done.
    by apply (Hinv i j a b).
Qed.

(** X14. The tile types decide a move as their walkable flags say: a
    destination holding the wall tile refuses it, and an in-bounds
    destination holding the floor or the down-stairs tile with no blocking
    entity on it admits it. *)
Theorem MovementAction_by_tile_type e entity ent dx dy t :
  heap e !! entity = Some ent ->
  in_bounds (game_map e) (x ent + dx) (y ent + dy) = true ->
  tile_at (game_map e) (x ent + dx) (y ent + dy) = Some t ->
  (t = wall ->
   perform (MovementAction entity dx dy) e
   = (e, Raised (Impossible "That way is blocked.")))
  /\ (t = floor \/ t = down_stairs ->
      get_blocking_entity_at_location e (x ent + dx) (y ent + dy) = None ->
      exists e',
        perform (MovementAction entity dx dy) e = (e', Returned tt)
        /\ position_of e' entity = Some (x ent + dx, y ent + dy)).
Proof.
  intros Hi Hbounds Ht.
  rewrite (MovementAction_unfold _ _ _ dx dy Hi), Hbounds, Ht. cbn [negb].
  split.
  - by intros ->.
  - intros Hwalk Hfree.
    assert (walkable t = true) as -> by (by destruct Hwalk as [-> | ->]).
    cbn [negb]. rewrite Hfree, (run_move _ _ _ dx dy Hi).
    eexists. split; [done |]. unfold position_of. cbn. by rewrite lookup_insert_eq.
Qed.

(** *** PickupAction: what a resolution changes and what it keeps *)

Lemma list_remove_other (v w : nat) (l l' : list nat) :
  list_remove v l = Some l' -> w <> v -> w ∈ l -> w ∈ l'.
Proof.
  revert l'. induction l as [| h t IH]; intros l' Hr Hne Hin; [done |].
  cbn in Hr. destruct (h =? v)%nat eqn:Hhv.
  - injection Hr as <-. apply Nat.eqb_eq in Hhv as ->.
    by apply elem_of_cons in Hin as [-> | Hin].
  - destruct (list_remove v t) as [t' |]; [| done].
    injection Hr as <-. apply elem_of_cons in Hin as [-> | Hin].
    + apply elem_of_cons. by left.
    + apply elem_of_cons. right. by apply (IH t').
Qed.

Lemma run_PickupAction e entity ent f inv eq item :
  heap e !! entity = Some ent ->
  kind ent = IsActor f inv eq ->
  first_item_at e (x ent) (y ent) = Some item ->
  Z.of_nat (length (items inv)) < capacity inv ->
  exists it ents',
    heap e !! item = Some it
    /\ item ∈ entities (game_map e)
    /\ (x it, y it) = (x ent, y ent)
    /\ entity <> item
    /\ list_remove item (entities (game_map e)) = Some ents'
    /\ perform (PickupAction entity) e
       = (log_append ("You pick up the " +:+ name it +:+ ".", None)
            (set_heap
               (<[entity := set_kind (IsActor f (mk_Inventory (capacity inv)
                                                   (items inv ++ [item])) eq) ent]>
                  (<[item := mk_Entity (x it) (y it) (name it) (blocks_movement it)
                               (InInventory entity) (kind it)]> (heap e)))
               (set_entities ents' e)),
          Returned tt).
Proof.
  intros Hi Hk Hfirst Hroom.
  rewrite (PickupAction_unfold _ _ _ _ _ _ Hi Hk).
  pose proof (first_item_at_scan e entity (x ent) (y ent)) as Hscan.
  rewrite Hfirst in Hscan. destruct Hscan as (-> & Hin & Hitem & Hat).
  unfold is_item in Hitem. unfold at_location in Hat.
  destruct (heap e !! item) as [it |] eqn:Hit; [| done].
  destruct (kind it) as [| c q] eqn:Hitk; [done |].
  assert (entity <> item) as Hne by (intros ->; congruence).
  destruct (list_remove_elem _ _ Hin) as [ents' Hrem].
  exists it, ents'.
  split; [done |]. split; [done |].
  split. { apply andb_true_iff in Hat as [Hx Hy]. apply Z.eqb_eq in Hx, Hy. congruence. }
  split; [done |]. split; [done |].
  cbn [PickupAction_loop].
  rewrite (run_bind _ _ _ _ _ (run_deref _ _ _ Hit)).
  rewrite (Z.eqb_sym (x ent)), (Z.eqb_sym (y ent)), Hat.
  rewrite (run_bind _ _ _ _ _ (run_get_inventory _ _ _ _ _ _ Hi Hk)).
  assert ((Z.of_nat (length (items inv)) >=? capacity inv) = false) as ->.
  { rewrite Z.geb_leb. apply Z.leb_gt. lia. }
  unfold bind at 1, gets at 1. rewrite Hrem.
  unfold bind at 1, modify at 1.
  assert (heap (set_entities ents' e) !! item = Some it) as Hit1 by done.
  rewrite (run_bind _ _ _ _ _ (run_deref _ _ _ Hit1)).
  unfold bind at 1, store at 1, modify at 1.
  match goal with
  | |- bind _ _ ?e2 = _ =>
      assert (heap e2 !! entity = Some ent) as Hi2
        by (cbn; by rewrite lookup_insert_ne);
      rewrite (run_bind _ _ _ _ _ (run_get_inventory e2 _ _ _ _ _ Hi2 Hk));
      rewrite (run_bind _ _ _ _ _ (run_set_inventory e2 _ _ _ _ _ _ Hi2 Hk))
  end.
  done.
Qed.

(** X15. PickupAction keeps the inventory within its capacity: for an
    actor whose inventory does not exceed its capacity, no outcome of the
    resolution leaves it longer than the capacity, and the capacity itself
    is never changed. *)
Theorem PickupAction_respects_capacity e entity ent f inv eq e' o :
  heap e !! entity = Some ent ->
  kind ent = IsActor f inv eq ->
  Z.of_nat (length (items inv)) <= capacity inv ->
  perform (PickupAction entity) e = (e', o) ->
  exists inv',
    inventory_of e' entity = Some inv'
    /\ capacity inv' = capacity inv
    /\ Z.of_nat (length (items inv')) <= capacity inv'.
Proof.
  intros Hi Hk Hfits Hrun.
  assert (inventory_of e entity = Some inv) as Hinv.
  { unfold inventory_of. by rewrite Hi, Hk. }
  destruct (first_item_at e (x ent) (y ent)) as [item |] eqn:Hfirst.
  - destruct (Z.of_nat (length (items inv)) >=? capacity inv) eqn:Hfull.
    + rewrite (PickupAction_unfold _ _ _ _ _ _ Hi Hk) in Hrun.
      pose proof (first_item_at_scan e entity (x ent) (y ent)) as Hscan.
      rewrite Hfirst in Hscan. destruct Hscan as (Hloop & _ & _ & Hat).
      rewrite Hloop in Hrun. unfold at_location in Hat.
      destruct (heap e !! item) as [it |] eqn:Hit; [| done].
      cbn [PickupAction_loop] in Hrun.
      rewrite (run_bind _ _ _ _ _ (run_deref _ _ _ Hit)) in Hrun.
      rewrite (Z.eqb_sym (x ent)), (Z.eqb_sym (y ent)), Hat in Hrun.
      rewrite (run_bind _ _ _ _ _ (run_get_inventory _ _ _ _ _ _ Hi Hk)), Hfull in Hrun.
      injection Hrun as <- _. by exists inv.
    + rewrite Z.geb_leb in Hfull. apply Z.leb_gt in Hfull.
      destruct (run_PickupAction _ _ _ _ _ _ _ Hi Hk Hfirst Hfull)
        as (it & ents' & _ & _ & _ & _ & _ & Hperf).
      rewrite Hperf in Hrun. injection Hrun as <- _.
      eexists. split.
      { unfold inventory_of. cbn. by rewrite lookup_insert_eq. }
      cbn. split; [done |]. rewrite length_app. cbn. lia.
  - rewrite (PickupAction_unfold _ _ _ _ _ _ Hi Hk) in Hrun.
    pose proof (first_item_at_scan e entity (x ent) (y ent)) as Hscan.
    rewrite Hfirst in Hscan. rewrite Hscan in Hrun.
    injection Hrun as <- _. by exists inv.
Qed.

(** X16. A successful pick-up takes an item that is in the entity
    collection of the map and on the actor's tile, logs exactly one event
    naming it (in the default style), makes the actor's inventory its
    owner and leaves its position and components alone; every other entity
    stays in the collection and every entity other than actor and item is
    untouched, as are the actor's position, fighter and equipment. *)
Theorem PickupAction_frame e entity ent f inv eq item :
  heap e !! entity = Some ent ->
  kind ent = IsActor f inv eq ->
  first_item_at e (x ent) (y ent) = Some item ->
  Z.of_nat (length (items inv)) < capacity inv ->
  exists e' it,
    perform (PickupAction entity) e = (e', Returned tt)
    /\ heap e !! item = Some it
    /\ item ∈ entities (game_map e)
    /\ (x it, y it) = (x ent, y ent)
    /\ message_log e' = message_log e ++ [("You pick up the " +:+ name it +:+ ".", None)]
    /\ heap e' !! item
       = Some (mk_Entity (x it) (y it) (name it) (blocks_movement it)
                 (InInventory entity) (kind it))
    /\ (forall j, j <> item -> j ∈ entities (game_map e) -> j ∈ entities (game_map e'))
    /\ (forall j, j <> item -> j <> entity -> heap e' !! j = heap e !! j)
    /\ position_of e' entity = position_of e entity
    /\ fighter_of e' entity = Some f
    /\ equipment_of e' entity = Some eq.
Proof.
  intros Hi Hk Hfirst Hroom.
  destruct (run_PickupAction _ _ _ _ _ _ _ Hi Hk Hfirst Hroom)
    as (it & ents' & Hit & Hin & Hpos & Hne & Hrem & Hperf).
  rewrite Hperf. eexists. exists it.
  split; [done |]. split; [done |]. split; [done |]. split; [done |].
  unfold position_of, fighter_of, equipment_of. cbn.
  split; [done |].
  split. { rewrite lookup_insert_ne by done. by rewrite lookup_insert_eq. }
  split. { intros j Hj Hjin. by apply (list_remove_other _ _ _ _ Hrem). }
  split. { intros j Hj Hje. rewrite lookup_insert_ne by done. by rewrite lookup_insert_ne. }
  rewrite lookup_insert_eq, Hi. done.
Qed.

(** *** DropAction: the remaining branches *)

(** X17. A DropAction on a carried item that is not equipped drops it
    without looking at its equippable capability or touching the
    equipment: the item leaves the inventory and joins the entity
    collection of the map at the position of the actor. *)
Theorem DropAction_not_equipped e entity ent f inv eq item it target_xy :
  heap e !! entity = Some ent ->
  kind ent = IsActor f inv eq ->
  heap e !! item = Some it ->
  entity <> item ->
  item_is_equipped eq item = false ->
  item ∈ items inv ->
  NoDup (items inv) ->
  exists e' inv',
    perform (DropAction entity item target_xy) e = (e', Returned tt)
    /\ inventory_of e' entity = Some inv'
    /\ (item ∉ items inv')
    /\ equipment_of e' entity = Some eq
    /\ (item ∈ entities (game_map e'))
    /\ position_of e' item = Some (x ent, y ent)
    /\ position_of e' entity = Some (x ent, y ent).
Proof.
  intros Hi Hk Hit Hne Heq Hin Hnd.
  destruct (list_remove_elem _ _ Hin) as [rest Hrem].
  cbn [perform]. unfold DropAction_perform.
  rewrite (run_bind _ _ _ _ _ (run_get_equipment _ _ _ _ _ _ Hi Hk)), Heq.
  rewrite (run_drop _ _ _ _ _ _ _ _ _ Hi Hk Hit Hne Hrem).
  eexists. exists (mk_Inventory (capacity inv) rest).
  split; [done |].
  unfold inventory_of, equipment_of, position_of. cbn.
  rewrite lookup_insert_eq, lookup_insert_ne by done. rewrite lookup_insert_eq. cbn.
  split; [done |].
  split; [by eapply list_remove_NoDup |].
  split; [done |].
  split; [apply elem_of_app; right; by apply list_elem_of_singleton |].
  done.
Qed.

(** X18. A DropAction on an equipped item that has no equippable
    capability fails with the attribute error of reading the category of
    nothing, before anything has changed. *)
Theorem DropAction_equipped_without_capability e entity ent f inv eq item it c target_xy :
  heap e !! entity = Some ent ->
  kind ent = IsActor f inv eq ->
  heap e !! item = Some it ->
  kind it = IsItem c None ->
  item_is_equipped eq item = true ->
  perform (DropAction entity item target_xy) e = (e, Raised AttributeError).
Proof.
  intros Hi Hk Hit Hitk Heq.
  cbn [perform]. unfold DropAction_perform.
  rewrite (run_bind _ _ _ _ _ (run_get_equipment _ _ _ _ _ _ Hi Hk)), Heq.
  assert (get_equipment_type item e = (e, Raised AttributeError)) as Hty.
  { unfold get_equipment_type.
    by rewrite (run_bind _ _ _ _ _ (run_get_equippable _ _ _ _ _ Hit Hitk)). }
  by rewrite (run_bind_raised _ _ _ _ _ Hty).
Qed.

(** *** BumpAction: an attack or a move, never both *)

(** X19. Whatever its outcome, a BumpAction towards a tile that holds an
    actor moves nobody, and a BumpAction towards a tile that holds none
    changes nobody's fighter stats and logs nothing. *)
Theorem BumpAction_attacks_or_moves e entity ent dx dy e' o :
  heap e !! entity = Some ent ->
  perform (BumpAction entity dx dy) e = (e', o) ->
  (is_Some (get_actor_at_location e (x ent + dx) (y ent + dy)) ->
   forall j, position_of e' j = position_of e j)
  /\ (get_actor_at_location e (x ent + dx) (y ent + dy) = None ->
      (forall j, fighter_of e' j = fighter_of e j)
      /\ message_log e' = message_log e).
Proof.
  intros Hi Hrun. cbn [perform] in Hrun. unfold BumpAction_perform in Hrun.
  rewrite (run_bind _ _ _ _ _ (run_target_actor _ _ _ dx dy Hi)) in Hrun.
  split.
  - intros [target Ht]. rewrite Ht in Hrun.
    exact (MeleeAction_keeps_positions _ _ _ dx dy _ _ Hi Hrun).
  - intros Ht. rewrite Ht in Hrun.
    exact (MovementAction_keeps_fighters _ _ _ dx dy _ _ Hi Hrun).
Qed.

(** X20. A downward TakeStairsAction is never refused: in no engine state
    and on no tile does it end in an Impossible rejection. *)
Theorem TakeStairsAction_down_never_refused e entity e' reason :
  perform (TakeStairsAction entity true) e <> (e', Raised (Impossible reason)).
Proof.
  revert e e' reason.
  change (never_Impossible (perform (TakeStairsAction entity true)
                            : M Consumable GameWorld unit)).
  cbn [perform]. unfold TakeStairsAction_perform. cbv beta iota.
  never_steps.
Qed.

End Properties.

Lemma BumpAction_dispatch_witness :
  perform (BumpAction 0%nat 1 0) (demo_engine 1)
  = perform (MeleeAction 0%nat 1 0) (demo_engine 1)
  /\ perform (BumpAction 0%nat 0 1) (demo_engine 1)
     = perform (MovementAction 0%nat 0 1) (demo_engine 1).
Proof.
  destruct (BumpAction_dispatch (demo_engine 1) 0%nat demo_player 1 0 eq_refl) as [Hm _].
  destruct (BumpAction_dispatch (demo_engine 1) 0%nat demo_player 0 1 eq_refl) as [_ Hv].
  split.
  - apply (Hm 1%nat). reflexivity.
  - apply Hv. reflexivity.
Defined.

Lemma demo_map_shaped : tiles_shaped demo_map.
Proof. split; [reflexivity | repeat constructor]. Qed.

Lemma MovementAction_blocked_or_moved_witness :
  perform (MovementAction 0%nat 2 0) (demo_engine 1)
  = (demo_engine 1, Raised (Impossible "That way is blocked."))
  /\ exists e',
       perform (MovementAction 0%nat 0 1) (demo_engine 1) = (e', Returned tt)
       /\ position_of e' 0%nat = Some (1, 2).
Proof.
  split.
  - apply (MovementAction_blocked_or_moved (demo_engine 1) 0%nat demo_player 2 0
             eq_refl demo_map_shaped).
    right. left. exists wall. split; reflexivity.
  - apply (MovementAction_blocked_or_moved (demo_engine 1) 0%nat demo_player 0 1
             eq_refl demo_map_shaped).
    intros [Hout | [(t & Ht & Hw) | [b Hb]]].
    + vm_compute in Hout. discriminate.
    + vm_compute in Ht. injection Ht as <-. vm_compute in Hw. discriminate.
    + vm_compute in Hb. discriminate.
Defined.

Lemma MovementAction_lookup_in_bounds_witness :
  perform (MovementAction 0%nat (-2) 0) (demo_engine 1)
  = (demo_engine 1, Raised (Impossible "That way is blocked."))
  /\ (exists column t,
        tiles demo_map !! Z.to_nat (1 + 1) = Some column
        /\ column !! Z.to_nat (1 + 0) = Some t
        /\ tile_at demo_map (1 + 1) (1 + 0) = Some t)
  /\ snd (perform (MovementAction 0%nat 1 0) (demo_engine 1)) <> Raised IndexError.
Proof.
  split; [| split].
  - apply (MovementAction_lookup_in_bounds (demo_engine 1) 0%nat demo_player (-2) 0 eq_refl).
    reflexivity.
  - apply (MovementAction_lookup_in_bounds (demo_engine 1) 0%nat demo_player 1 0 eq_refl).
    + exact demo_map_shaped.
    + reflexivity.
  - apply (MovementAction_lookup_in_bounds (demo_engine 1) 0%nat demo_player 1 0 eq_refl).
    exact demo_map_shaped.
Defined.

Lemma MeleeAction_damage_witness :
  (exists def e',
      fighter_of (demo_engine 1) 1%nat = Some def
      /\ perform (MeleeAction 0%nat 1 0) (demo_engine 1) = (e', Returned tt)
      /\ (5 - defense def > 0 ->
          fighter_of e' 1%nat
          = Some (mk_Fighter (hp def - (5 - defense def)) (power def) (defense def)))
      /\ (5 - defense def <= 0 ->
          fighter_of e' 1%nat = Some def /\ heap e' = heap (demo_engine 1)))
  /\ perform (MeleeAction 0%nat 0 1) (demo_engine 1)
     = (demo_engine 1, Raised (Impossible "Nothing to attack")).
Proof.
  destruct (MeleeAction_damage (demo_engine 1) 0%nat demo_player _ _ _ 1 0 eq_refl eq_refl)
    as [Hhit _].
  destruct (MeleeAction_damage (demo_engine 1) 0%nat demo_player _ _ _ 0 1 eq_refl eq_refl)
    as [_ Hmiss].
  split.
  - apply (Hhit 1%nat). reflexivity.
  - apply Hmiss. reflexivity.
Defined.

Lemma PickupAction_transfers_witness :
  exists e' inv',
    perform (PickupAction 0%nat) (demo_engine 1) = (e', Returned tt)
    /\ (list_remove 2%nat [0%nat; 1%nat; 5%nat; 2%nat] = Some (entities (game_map e')))
    /\ (2%nat ∉ entities (game_map e'))
    /\ inventory_of e' 0%nat = Some inv'
    /\ items inv' = [3%nat; 4%nat] ++ [2%nat]
    /\ length (items inv') = 3%nat
    /\ 2%nat ∈ items inv'.
Proof.
  apply (PickupAction_transfers (demo_engine 1) 0%nat demo_player _ _ _ 2%nat
           eq_refl eq_refl).
  - reflexivity.
  - cbn. lia.
  - apply (bool_decide_unpack _). vm_compute. exact I.
Defined.

Lemma PickupAction_full_inventory_witness :
  perform (PickupAction 1%nat) (demo_engine 1)
  = (demo_engine 1, Raised (Impossible "There is nothing here to pick up."))
  /\ perform (PickupAction 0%nat) demo_full_engine
     = (demo_full_engine, Raised (Impossible "Your inventory is full.")).
Proof.
  destruct (PickupAction_full_inventory (demo_engine 1) 1%nat _ _ _ _
              eq_refl eq_refl eq_refl) as [Hnothing _].
  destruct (PickupAction_full_inventory demo_full_engine 0%nat _ _ _ _
              eq_refl eq_refl eq_refl) as [_ Hfull].
  split.
  - apply Hnothing. reflexivity.
  - apply (Hfull 2%nat). reflexivity.
Defined.

Lemma DropAction_worn_armor_witness :
  exists e',
    perform (DropAction 0%nat 4%nat (1, 1)) (demo_engine 1) = (e', Returned tt)
    /\ heap e' = heap (demo_engine 1)
    /\ game_map e' = game_map (demo_engine 1)
    /\ game_world e' = game_world (demo_engine 1)
    /\ inventory_of e' 0%nat = Some (mk_Inventory 3 [3%nat; 4%nat])
    /\ equipment_of e' 0%nat = Some (mk_Equipment (Some 3%nat) (Some 4%nat))
    /\ message_log e'
       = message_log (demo_engine 1)
         ++ [("You cannot drop something you are wearing.", Some invalid)].
Proof.
  apply (DropAction_worn_armor (demo_engine 1) 0%nat demo_player
           (mk_Fighter 30 5 2) (mk_Inventory 3 [3%nat; 4%nat])
           (mk_Equipment (Some 3%nat) (Some 4%nat)) 4%nat demo_leather
           None (mk_Equippable ARMOR) (1, 1)); reflexivity.
Defined.

Lemma demo_slots_match :
  slots_match (demo_engine 1) (mk_Equipment (Some 3%nat) (Some 4%nat)).
Proof. intros [|] i Hs; injection Hs as <-; reflexivity. Qed.

Lemma DropAction_equipped_not_armor_witness :
  exists e' inv' eq' it',
    perform (DropAction 0%nat 3%nat (1, 1)) (demo_engine 1) = (e', Returned tt)
    /\ equipment_of e' 0%nat = Some eq'
    /\ item_is_equipped eq' 3%nat = false
    /\ (forall s, slot_get eq' s <> Some 3%nat)
    /\ inventory_of e' 0%nat = Some inv'
    /\ (3%nat ∉ items inv')
    /\ (3%nat ∈ entities (game_map e'))
    /\ heap e' !! 3%nat = Some it'
    /\ position_of e' 3%nat = position_of e' 0%nat
    /\ position_of e' 0%nat = Some (1, 1).
Proof.
  apply (DropAction_equipped_not_armor (demo_engine 1) 0%nat demo_player
           (mk_Fighter 30 5 2) (mk_Inventory 3 [3%nat; 4%nat])
           (mk_Equipment (Some 3%nat) (Some 4%nat)) 3%nat
           demo_dagger None (mk_Equippable WEAPON) (1, 1)); try reflexivity.
  - discriminate.
  - exact demo_slots_match.
  - apply (bool_decide_unpack _). vm_compute. exact I.
  - apply (bool_decide_unpack _). vm_compute. exact I.
Defined.

Lemma TakeStairsAction_upward_witness :
  perform (TakeStairsAction 0%nat false) (demo_engine 1)
  = (demo_engine 1,
     Raised (Impossible "You have not finished your mission. You may not leave."))
  /\ perform (TakeStairsAction 0%nat false) (demo_engine 2)
     = (log_append ("You ascend the staircase.", Some descend) (demo_engine 1), Returned tt)
  /\ current_floor_number
       (game_world (log_append ("You ascend the staircase.", Some descend)
                      (ascend_floor (demo_engine 2))))
     = 1.
Proof.
  destruct (TakeStairsAction_upward (demo_engine 1) 0%nat demo_player eq_refl eq_refl)
    as [Hfirst _].
  destruct (TakeStairsAction_upward (demo_engine 2) 0%nat demo_player eq_refl eq_refl)
    as [_ Habove].
  split; [apply Hfirst; reflexivity |].
  destruct Habove as [Hrun Hfloor]; [reflexivity | discriminate |].
  split; [exact Hrun |].
  apply Hfloor. intros w. reflexivity.
Defined.

Lemma Impossible_leaves_engine_unchanged_witness :
  fst (perform (ItemAction 0%nat 2%nat (1, 1)) (demo_engine 1)) = demo_engine 1
  /\ fst (perform (PickupAction 0%nat) demo_full_engine) = demo_full_engine.
Proof.
  assert (forall c entity item target_xy,
             validates_first (activate (Consumable := demo_consumable) (GameWorld := Z)
                                c entity item target_xy)) as Hactivate.
  { intros c entity item target_xy e e' reason Hrun. injection Hrun as <- _. reflexivity. }
  split.
  - apply (Impossible_leaves_engine_unchanged (ItemAction 0%nat 2%nat (1, 1))
             (demo_engine 1) _ "Your health is already full." Hactivate).
    reflexivity.
  - apply (Impossible_leaves_engine_unchanged (PickupAction 0%nat)
             demo_full_engine _ "Your inventory is full." Hactivate).
    reflexivity.
Defined.

Lemma TakeStairsAction_descends_witness :
  perform (TakeStairsAction 0%nat true) (demo_engine_on_downstairs 1)
  = (log_append ("You descend the staircase.", Some descend) (demo_engine_on_downstairs 2),
     Returned tt).
Proof.
  etransitivity.
  - apply (TakeStairsAction_descends (demo_engine_on_downstairs 1) 0%nat
             (mk_Entity 1 2 "player" true InGameMap (kind demo_player))
             (mk_Entity 1 2 "player" true InGameMap (kind demo_player)));
      reflexivity.
  - reflexivity.
Defined.

Lemma TakeStairsAction_up_the_downstairs_witness :
  perform (TakeStairsAction 0%nat false) (demo_engine_on_downstairs 3)
  = (demo_engine_on_downstairs 3, Raised (Impossible "You cannot go up this staircase.")).
Proof.
  apply (TakeStairsAction_up_the_downstairs (demo_engine_on_downstairs 3) 0%nat
           (mk_Entity 1 2 "player" true InGameMap (kind demo_player)));
    reflexivity.
Defined.

Lemma TakeStairsAction_falls_through_witness :
  perform (TakeStairsAction 0%nat true) (demo_engine 2) = (demo_engine 2, Returned tt)
  /\ perform (TakeStairsAction 1%nat false) (demo_engine 2) = (demo_engine 2, Returned tt).
Proof.
  split.
  - apply (TakeStairsAction_falls_through (demo_engine 2) 0%nat demo_player true eq_refl).
    + discriminate.
    + left. reflexivity.
  - apply (TakeStairsAction_falls_through (demo_engine 2) 1%nat demo_orc false eq_refl).
    + discriminate.
    + right. discriminate.
Defined.

Lemma ItemAction_without_consumable_witness :
  perform (ItemAction 0%nat 3%nat (1, 1)) (demo_engine 1) = (demo_engine 1, Returned tt).
Proof.
  apply (ItemAction_without_consumable (demo_engine 1) 0%nat 3%nat demo_dagger
           (Some (mk_Equippable WEAPON)) (1, 1)); reflexivity.
Defined.

Lemma demo_player_on_map : 0%nat ∈ entities (game_map (demo_engine 1)).
Proof. apply (bool_decide_unpack _). vm_compute. exact I. Qed.

Lemma ItemAction_default_target_witness :
  ItemAction_init (demo_engine 1) 0%nat 2%nat None = Some (0%nat, 2%nat, (1, 1))
  /\ exists target tgt,
       ItemAction_target_actor (1, 1) (demo_engine 1) = (demo_engine 1, Returned (Some target))
       /\ heap (demo_engine 1) !! target = Some tgt
       /\ is_actor (heap (demo_engine 1)) target = true
       /\ (x tgt, y tgt) = (1, 1).
Proof.
  apply (ItemAction_default_target (demo_engine 1) 0%nat demo_player
           (mk_Fighter 30 5 2) (mk_Inventory 3 [3%nat; 4%nat])
           (mk_Equipment (Some 3%nat) (Some 4%nat)) 2%nat eq_refl eq_refl).
  exact demo_player_on_map.
Defined.

Lemma MovementAction_onto_blocking_actor_witness :
  is_Some (get_blocking_entity_at_location (demo_engine 1) (1 + 1) (1 + 0))
  /\ perform (MovementAction 0%nat 1 0) (demo_engine 1)
     = (demo_engine 1, Raised (Impossible "That way is blocked.")).
Proof.
  apply (MovementAction_onto_blocking_actor (demo_engine 1) 0%nat demo_player 1 0 1%nat
           eq_refl demo_map_shaped); reflexivity.
Defined.


Lemma MeleeAction_frame_witness :
  exists fj',
    fighter_of (fst (perform (MeleeAction 0%nat 1 0) (demo_engine 1))) 1%nat = Some fj'
    /\ hp fj' <= 10 /\ power fj' = 3 /\ defense fj' = 0.
Proof.
  destruct (MeleeAction_frame (demo_engine 1) 0%nat demo_player 1 0
              (fst (perform (MeleeAction 0%nat 1 0) (demo_engine 1)))
              (snd (perform (MeleeAction 0%nat 1 0) (demo_engine 1))) eq_refl
              (surjective_pairing _)) as (_ & _ & _ & _ & _ & Hhp).
  apply (Hhp 1%nat (mk_Fighter 10 3 0)). reflexivity.
Defined.

Lemma BumpAction_zero_offset_witness :
  perform (BumpAction 0%nat 0 0) (demo_engine 1)
  = perform (MeleeAction 0%nat 0 0) (demo_engine 1)
  /\ exists e',
       perform (BumpAction 0%nat 0 0) (demo_engine 1) = (e', Returned tt)
       /\ forall j, position_of e' j = position_of (demo_engine 1) j.
Proof.
  apply (BumpAction_zero_offset (demo_engine 1) 0%nat demo_player
           (mk_Fighter 30 5 2) (mk_Inventory 3 [3%nat; 4%nat])
           (mk_Equipment (Some 3%nat) (Some 4%nat)) eq_refl eq_refl).
  exact demo_player_on_map.
Defined.

Lemma MovementAction_frame_witness :
  message_log (fst (perform (MovementAction 0%nat 0 1) (demo_engine 1))) = []
  /\ game_map (fst (perform (MovementAction 0%nat 0 1) (demo_engine 1))) = demo_map.
Proof.
  destruct (MovementAction_frame (demo_engine 1) 0%nat demo_player 0 1
              (fst (perform (MovementAction 0%nat 0 1) (demo_engine 1)))
              (snd (perform (MovementAction 0%nat 0 1) (demo_engine 1))) eq_refl
              (surjective_pairing _)) as (Hlog & Hmap & _).
  split; [exact Hlog | exact Hmap].
Defined.

Lemma MovementAction_round_trip_witness :
  fst (perform (MovementAction 0%nat 0 (- 1))
         (fst (perform (MovementAction 0%nat 0 1) (demo_engine 1))))
  = demo_engine 1.
Proof.
  apply (MovementAction_round_trip (demo_engine 1) 0%nat demo_player 0 1
           (fst (perform (MovementAction 0%nat 0 1) (demo_engine 1)))
           (fst (perform (MovementAction 0%nat 0 (- 1))
                   (fst (perform (MovementAction 0%nat 0 1) (demo_engine 1)))))
           eq_refl); reflexivity.
Defined.

Lemma MovementAction_zero_offset_blocked_witness :
  perform (MovementAction 0%nat 0 0) (demo_engine 1)
  = (demo_engine 1, Raised (Impossible "That way is blocked.")).
Proof.
  apply (MovementAction_zero_offset_blocked (demo_engine 1) 0%nat demo_player
           eq_refl demo_map_shaped demo_player_on_map eq_refl).
Defined.

Lemma demo_no_stacking : no_stacking (demo_engine 1).
Proof.
  intros i j a b Hi Hj Ha Hb Hba Hbb Hpos.
  cbn in Hi, Hj.
  repeat (apply elem_of_cons in Hi as [-> | Hi]); [| | | | by apply elem_of_nil in Hi];
    repeat (apply elem_of_cons in Hj as [-> | Hj]); try (by apply elem_of_nil in Hj);
    try reflexivity;
    vm_compute in Ha; vm_compute in Hb;
    injection Ha as <-; injection Hb as <-; discriminate.
Qed.

Lemma MovementAction_keeps_no_stacking_witness :
  no_stacking (fst (perform (MovementAction 0%nat 0 1) (demo_engine 1))).
Proof.
  apply (MovementAction_keeps_no_stacking (demo_engine 1) 0%nat demo_player 0 1
           (fst (perform (MovementAction 0%nat 0 1) (demo_engine 1)))
           (snd (perform (MovementAction 0%nat 0 1) (demo_engine 1))) eq_refl
           demo_no_stacking (surjective_pairing _)).
Defined.

Lemma MovementAction_by_tile_type_witness :
  exists e',
    perform (MovementAction 0%nat 0 1) (demo_engine 1) = (e', Returned tt)
    /\ position_of e' 0%nat = Some (1, 2).
Proof.
  destruct (MovementAction_by_tile_type (demo_engine 1) 0%nat demo_player 0 1 down_stairs
              eq_refl eq_refl eq_refl) as [_ Hopen].
  apply Hopen; [by right | reflexivity].
Defined.

Lemma PickupAction_respects_capacity_witness :
  exists inv',
    inventory_of (fst (perform (PickupAction 0%nat) (demo_engine 1))) 0%nat = Some inv'
    /\ capacity inv' = 3
    /\ Z.of_nat (length (items inv')) <= capacity inv'.
Proof.
  apply (PickupAction_respects_capacity (demo_engine 1) 0%nat demo_player
           (mk_Fighter 30 5 2) (mk_Inventory 3 [3%nat; 4%nat])
           (mk_Equipment (Some 3%nat) (Some 4%nat))
           (fst (perform (PickupAction 0%nat) (demo_engine 1)))
           (snd (perform (PickupAction 0%nat) (demo_engine 1))) eq_refl eq_refl).
  - cbn. lia.
  - apply surjective_pairing.
Defined.

Lemma PickupAction_frame_witness :
  exists e' it,
    perform (PickupAction 0%nat) (demo_engine 1) = (e', Returned tt)
    /\ heap (demo_engine 1) !! 2%nat = Some it
    /\ (2%nat ∈ entities (game_map (demo_engine 1)))
    /\ (x it, y it) = (1, 1)
    /\ message_log e' = [] ++ [("You pick up the " +:+ name it +:+ ".", None)]
    /\ heap e' !! 2%nat
       = Some (mk_Entity (x it) (y it) (name it) (blocks_movement it)
                 (InInventory 0%nat) (kind it))
    /\ (forall j, j <> 2%nat -> j ∈ entities (game_map (demo_engine 1)) ->
                  j ∈ entities (game_map e'))
    /\ (forall j, j <> 2%nat -> j <> 0%nat -> heap e' !! j = heap (demo_engine 1) !! j)
    /\ position_of e' 0%nat = position_of (demo_engine 1) 0%nat
    /\ fighter_of e' 0%nat = Some (mk_Fighter 30 5 2)
    /\ equipment_of e' 0%nat = Some (mk_Equipment (Some 3%nat) (Some 4%nat)).
Proof.
  apply (PickupAction_frame (demo_engine 1) 0%nat demo_player
           (mk_Fighter 30 5 2) (mk_Inventory 3 [3%nat; 4%nat])
           (mk_Equipment (Some 3%nat) (Some 4%nat)) 2%nat eq_refl eq_refl).
  - reflexivity.
  - cbn. lia.
Defined.

Lemma DropAction_not_equipped_witness :
  exists e' inv',
    perform (DropAction 0%nat 2%nat (1, 1)) (fst (perform (PickupAction 0%nat) (demo_engine 1)))
    = (e', Returned tt)
    /\ inventory_of e' 0%nat = Some inv'
    /\ (2%nat ∉ items inv')
    /\ equipment_of e' 0%nat = Some (mk_Equipment (Some 3%nat) (Some 4%nat))
    /\ (2%nat ∈ entities (game_map e'))
    /\ position_of e' 2%nat = Some (1, 1)
    /\ position_of e' 0%nat = Some (1, 1).
Proof.
  apply (DropAction_not_equipped (fst (perform (PickupAction 0%nat) (demo_engine 1))) 0%nat
           (set_kind (IsActor (mk_Fighter 30 5 2) (mk_Inventory 3 [3%nat; 4%nat; 2%nat])
                        (mk_Equipment (Some 3%nat) (Some 4%nat))) demo_player)
           (mk_Fighter 30 5 2) (mk_Inventory 3 [3%nat; 4%nat; 2%nat])
           (mk_Equipment (Some 3%nat) (Some 4%nat)) 2%nat
           (mk_Entity 1 1 "health potion" false (InInventory 0%nat)
              (IsItem (Some demo_healing) None)) (1, 1)); try reflexivity.
  - discriminate.
  - apply (bool_decide_unpack _). vm_compute. exact I.
  - apply (bool_decide_unpack _). vm_compute. exact I.
Defined.

Lemma DropAction_equipped_without_capability_witness :
  perform (DropAction 0%nat 5%nat (1, 1)) demo_scroll_worn_engine
  = (demo_scroll_worn_engine, Raised AttributeError).
Proof.
  apply (DropAction_equipped_without_capability demo_scroll_worn_engine 0%nat
           (set_kind (IsActor (mk_Fighter 30 5 2) (mk_Inventory 3 [3%nat; 5%nat])
                        (mk_Equipment (Some 3%nat) (Some 5%nat))) demo_player)
           (mk_Fighter 30 5 2) (mk_Inventory 3 [3%nat; 5%nat])
           (mk_Equipment (Some 3%nat) (Some 5%nat)) 5%nat demo_scroll None (1, 1));
    reflexivity.
Defined.

Lemma BumpAction_attacks_or_moves_witness :
  (forall j, position_of (fst (perform (BumpAction 0%nat 1 0) (demo_engine 1))) j
             = position_of (demo_engine 1) j)
  /\ message_log (fst (perform (BumpAction 0%nat 0 1) (demo_engine 1))) = [].
Proof.
  destruct (BumpAction_attacks_or_moves (demo_engine 1) 0%nat demo_player 1 0
              (fst (perform (BumpAction 0%nat 1 0) (demo_engine 1)))
              (snd (perform (BumpAction 0%nat 1 0) (demo_engine 1))) eq_refl
              (surjective_pairing _)) as [Hattack _].
  destruct (BumpAction_attacks_or_moves (demo_engine 1) 0%nat demo_player 0 1
              (fst (perform (BumpAction 0%nat 0 1) (demo_engine 1)))
              (snd (perform (BumpAction 0%nat 0 1) (demo_engine 1))) eq_refl
              (surjective_pairing _)) as [_ Hmove].
  split.
  - apply Hattack. by exists 1%nat.
  - apply Hmove. reflexivity.
Defined.
